(** * react-resizable-panels: the layout redistribution engine of
      [packages/react-resizable-panels/src/utils/group.ts]

    A shallow embedding of [safeResizePanel], [adjustByDelta],
    [callPanelCallbacks], [getFlexGrow] and [panelsMapToSortedArray].

    Numbers.  A JavaScript [number] is modelled as an exact rational [Q]:
    [+], [-], [Math.abs], [Math.min], [Math.max] and the comparisons are the
    exact operations, and [===] on numbers is [Qeq_bool].  This is the
    behaviour of binary64 arithmetic wherever no rounding occurs (the
    concrete inputs of this model are small integers).  [undefined] and [NaN]
    are not numbers of the model: an array read that yields [undefined] where
    the source goes on to compute with it ends the run with [Unmodelled].

    Rounding.  What depends on the rounding of [+] and [-], the budget of
    [adjustByDelta], is stated over a second embedding of [safeResizePanel]
    and [adjustByDelta], module [Binary64], in which a [number] is a
    binary64 value. *)

From Stdlib Require Import ZArith QArith Qabs Qminmax Qround Lqa Lia.
From Stdlib Require Import List String Ascii Bool DecimalString.
From Stdlib Require Import Permutation Sorted.
From Stdlib Require PrimFloat FloatOps SpecFloat FloatClass.
Import ListNotations.

Local Open Scope Q_scope.

(** ** Outcomes of a run *)

Inductive Exn : Type :=
| TypeError    (* a property is read from [undefined] *)
| RangeError   (* [toPrecision] with a precision outside 1..100 *)
| Unmodelled   (* the run goes on with [undefined] or [NaN] as a number *)
| OutOfFuel.   (* the loop bound of the model is exhausted *)

Inductive Result (A : Type) : Type :=
| Ok (a : A)
| Throw (e : Exn).
Arguments Ok {A} a.
Arguments Throw {A} e.

Definition bind {A B : Type} (m : Result A) (k : A -> Result B) : Result B :=
  match m with
  | Ok a => k a
  | Throw e => Throw e
  end.

Notation "x <- m ;; k" := (bind m (fun x => k))
  (at level 61, m at next level, right associativity).
Notation "' p <- m ;; k" := (bind m (fun x => let p := x in k))
  (at level 61, p pattern, m at next level, right associativity).

Definition orThrow {A : Type} (e : Exn) (o : option A) : Result A :=
  match o with
  | Some a => Ok a
  | None => Throw e
  end.

(** ** Numbers *)

Module Num.

(** [a < b] on numbers. *)
Definition ltb (a b : Q) : bool := negb (Qle_bool b a).
(** [a <= b] on numbers. *)
Definition leb (a b : Q) : bool := Qle_bool a b.
(** [a === b] on numbers. *)
Definition eqb (a b : Q) : bool := Qeq_bool a b.

(** *** [Number.prototype.toPrecision]

    The ECMAScript algorithm on the exact value of the number: pick the
    [p]-digit integer [n] and the exponent [e] with [n * 10^(e-p+1)]
    nearest to [x], ties to the larger; print in fixed notation when
    [-6 <= e < p] and in exponential notation otherwise. *)

Definition pow10 (k : Z) : Q := (10 # 1) ^ k.

(** Largest [k >= 0], searched upwards from [k], with [10^(k+1) <= x]
    failing; for [x >= 1] this is [floor (log10 x)]. *)
Fixpoint expUp (fuel : nat) (x : Q) (k : Z) : Z :=
  match fuel with
  | O => k
  | S fuel' => if leb (pow10 (k + 1)) x then expUp fuel' x (k + 1) else k
  end.

(** For [0 < x < 1]: the [k < 0], searched downwards, with [10^k <= x]. *)
Fixpoint expDown (fuel : nat) (x : Q) (k : Z) : Z :=
  match fuel with
  | O => k
  | S fuel' => if leb (pow10 k) x then k else expDown fuel' x (k - 1)
  end.

(** [floor (log10 x)] for [x > 0]; the bit sizes of numerator and
    denominator bound the search. *)
Definition exponent10 (x : Q) : Z :=
  if leb 1 x
  then expUp (Z.to_nat (Z.log2 (Qnum x)) + 1) x 0
  else expDown (Pos.size_nat (Qden x) + 1) x (-1).

(** Round to the nearest integer, ties upwards. *)
Definition roundHalfUp (x : Q) : Z := Qfloor (x + (1 # 2)).

Definition digitsOf (n : Z) : string :=
  NilZero.string_of_uint (N.to_uint (Z.to_N n)).

Fixpoint zeros (k : nat) : string :=
  match k with
  | O => EmptyString
  | S k' => String "0" (zeros k')
  end.

Definition toPrecision (x : Q) (p : nat) : Result string :=
  if ((p <? 1)%nat || (100 <? p)%nat)%bool then Throw RangeError
  else
    let s := if ltb x 0 then "-"%string else ""%string in
    let x := Qabs x in
    let pz := Z.of_nat p in
    let '(m, e) :=
      if eqb x 0 then (zeros p, 0%Z)
      else
        let e := exponent10 x in
        let n := roundHalfUp (x * pow10 (pz - 1 - e)) in
        if (n =? 10 ^ pz)%Z
        then (digitsOf (10 ^ (pz - 1)), (e + 1)%Z)
        else (digitsOf n, e) in
    if ((e <? -6)%Z || (pz <=? e)%Z)%bool then
      let m := if (p =? 1)%nat then m
               else (substring 0 1 m ++ "." ++ substring 1 (p - 1) m)%string in
      let c := if (0 <? e)%Z then "+"%string else "-"%string in
      Ok (s ++ m ++ "e" ++ c ++ digitsOf (Z.abs e))%string
    else if (e =? pz - 1)%Z then Ok (s ++ m)%string
    else if (0 <=? e)%Z then
      let k := Z.to_nat (e + 1) in
      Ok (s ++ substring 0 k m ++ "." ++ substring k (p - k) m)%string
    else
      Ok (s ++ "0." ++ zeros (Z.to_nat (- (e + 1))) ++ m)%string.

(** [a >= b] on strings: code units compared lexicographically. *)
Definition strGe (a b : string) : bool := String.leb b a.

End Num.

(** ** Arrays indexed by a JavaScript number *)

(** [a[i]]: [undefined] (here [None]) outside [0 .. length - 1]. *)
Definition getIndex {A : Type} (a : list A) (i : Z) : option A :=
  if (i <? 0)%Z then None else nth_error a (Z.to_nat i).

Fixpoint setNth {A : Type} (a : list A) (n : nat) (v : A) : list A :=
  match a, n with
  | [], _ => []
  | _ :: a', O => v :: a'
  | x :: a', S n' => x :: setNth a' n' v
  end.

(** [a[i] = v] for an index inside the array.  Outside it JavaScript
    extends the array (leaving holes, or adding the property "-1"); no list
    of numbers describes that, and the source never gets there: each
    write to [nextSizes[index]] follows a read of [prevSizes[index]]. *)
Definition setIndex {A : Type} (a : list A) (i : Z) (v : A) : Result (list A) :=
  if ((0 <=? i)%Z && (i <? Z.of_nat (List.length a))%Z)%bool
  then Ok (setNth a (Z.to_nat i) v)
  else Throw Unmodelled.

Fixpoint findIndexFrom {A : Type} (f : A -> bool) (a : list A) (i : Z) : Z :=
  match a with
  | [] => (-1)%Z
  | x :: a' => if f x then i else findIndexFrom f a' (i + 1)%Z
  end.

(** [a.findIndex(f)]: the first index whose element satisfies [f], or -1. *)
Definition findIndex {A : Type} (f : A -> bool) (a : list A) : Z :=
  findIndexFrom f a 0%Z.

Definition sum (a : list Q) : Q := fold_right Qplus 0 a.

(** ** The data model *)

(** [callbacksRef.current]: which of the two optional hooks are set. *)
Record PanelCallbacks : Type := {
  onCollapse : bool;
  onResize : bool
}.

Record PanelData : Type := {
  callbacksRef : PanelCallbacks;
  collapsible : bool;
  id : string;
  maxSize : Q;
  minSize : Q;
  order : Q
}.

(** A [ResizeEvent] (keyboard, mouse or touch event); only its [type]
    is read. *)
Record ResizeEvent : Type := {
  type : string
}.

(** A [Map] from string keys, in insertion order. *)
Definition JsMap (V : Type) : Type := list (string * V).

Fixpoint mapSet {V : Type} (m : JsMap V) (k : string) (v : V) : JsMap V :=
  match m with
  | [] => [(k, v)]
  | (k', v') :: m' =>
      if String.eqb k' k then (k', v) :: m' else (k', v') :: mapSet m' k v
  end.

Definition mapValues {V : Type} (m : JsMap V) : list V := map snd m.

Definition mapSize {V : Type} (m : JsMap V) : nat := List.length m.

(** ** panelsMapToSortedArray *)

(** [Array.prototype.sort] is stable: an element stays in front of the
    later elements the comparator ranks equal to it. *)
Fixpoint insertSorted (p : PanelData) (a : list PanelData) : list PanelData :=
  match a with
  | [] => [p]
  | q :: a' =>
      if Num.leb (order p - order q) 0 then p :: q :: a'
      else q :: insertSorted p a'
  end.

Definition sortByOrder (a : list PanelData) : list PanelData :=
  fold_right insertSorted [] a.

Definition panelsMapToSortedArray (panels : JsMap PanelData) : list PanelData :=
  sortByOrder (mapValues panels).

(** ** safeResizePanel *)

(** [event?.type?.startsWith("key")], [undefined] counting as false. *)
Definition isKeyboardEvent (event : option ResizeEvent) : bool :=
  match event with
  | None => false
  | Some e => String.prefix "key" (type e)
  end.

Definition safeResizePanel (panel : PanelData) (delta prevSize : Q)
    (event : option ResizeEvent) : Q :=
  let nextSizeUnsafe := prevSize + delta in
  let clamped := Qmin (maxSize panel) (Qmax (minSize panel) nextSizeUnsafe) in
  if collapsible panel then
    if Num.ltb 0 prevSize then
      if Num.leb nextSizeUnsafe 0 then 0 else clamped
    else
      if negb (isKeyboardEvent event) then
        if Num.ltb nextSizeUnsafe (minSize panel) then 0 else clamped
      else clamped
  else clamped.

(** ** adjustByDelta *)

(** What [adjustByDelta] hands back: the array object [prevSizes] it was
    given, or the array [nextSizes] it made with [prevSizes.concat()]. *)
Inductive Returned : Type :=
| PrevSizes
| NextSizes (nextSizes : list Q).

(** The array a caller holds after the call. *)
Definition sizesAfter (prevSizes : list Q) (r : Returned) : list Q :=
  match r with
  | PrevSizes => prevSizes
  | NextSizes nextSizes => nextSizes
  end.

(** [panelsArray.findIndex((panel) => panel.id === pivotId)] *)
Definition findPanelIndex (panelsArray : list PanelData) (pivotId : string) : Z :=
  findIndex (fun panel => String.eqb (id panel) pivotId) panelsArray.

(** [if (nextSize === 0 && prevSize > 0) panelSizeBeforeCollapse.set(...)] *)
Definition rememberCollapse (panelSizeBeforeCollapse : JsMap Q)
    (panelId : string) (prevSize nextSize : Q) : JsMap Q :=
  if (Num.eqb nextSize 0 && Num.ltb 0 prevSize)%bool
  then mapSet panelSizeBeforeCollapse panelId prevSize
  else panelSizeBeforeCollapse.

(** The local state of the [while (true)] loop. *)
Record Walk : Type := {
  nextSizesOf : list Q;
  deltaAppliedOf : Q;
  collapseMapOf : JsMap Q
}.

Section WithPrecision.

(** The constant [PRECISION] imported from [../constants], a file that is
    not among the sources; it is the argument of [toPrecision]. *)
Variable PRECISION : nat.

(** The first half of the loop body: resize the panel at [index] by the
    negated magnitude of [delta]; if its size changes, record it and compare
    the two [toPrecision] strings.  The boolean is true where the source
    takes the [break] of that comparison. *)
Definition shrinkPanelAt (event : option ResizeEvent) (panel : PanelData)
    (prevSize delta : Q) (index : Z) (w : Walk) : Result (Walk * bool) :=
  let nextSize := safeResizePanel panel (0 - Qabs delta) prevSize event in
  if negb (Num.eqb prevSize nextSize) then
    let memo :=
      rememberCollapse (collapseMapOf w) (id panel) prevSize nextSize in
    let deltaApplied := deltaAppliedOf w + (prevSize - nextSize) in
    nextSizes <- setIndex (nextSizesOf w) index nextSize ;;
    applied <- Num.toPrecision deltaApplied PRECISION ;;
    wanted <- Num.toPrecision delta PRECISION ;;
    Ok ({| nextSizesOf := nextSizes;
           deltaAppliedOf := deltaApplied;
           collapseMapOf := memo |},
        Num.strGe applied wanted)
  else Ok (w, false).

(** The [while (true)] loop of [adjustByDelta], entered at [index]; each
    level of [fuel] is one iteration. *)
Fixpoint shrinkLoop (fuel : nat) (event : option ResizeEvent)
    (panelsArray : list PanelData) (prevSizes : list Q) (delta : Q)
    (index : Z) (w : Walk) : Result Walk :=
  match fuel with
  | O => Throw OutOfFuel
  | S fuel' =>
      panel <- orThrow TypeError (getIndex panelsArray index) ;;
      prevSize <- orThrow Unmodelled (getIndex prevSizes index) ;;
      '(w, stop) <- shrinkPanelAt event panel prevSize delta index w ;;
      if (stop : bool) then Ok w
      else if Num.ltb delta 0 then
        let index := (index - 1)%Z in
        if (index <? 0)%Z then Ok w
        else shrinkLoop fuel' event panelsArray prevSizes delta index w
      else
        let index := (index + 1)%Z in
        if (Z.of_nat (List.length panelsArray) <=? index)%Z then Ok w
        else shrinkLoop fuel' event panelsArray prevSizes delta index w
  end.

(** The loop visits each panel at most once. *)
Definition loopFuel (panelsArray : list PanelData) : nat :=
  S (List.length panelsArray).

Definition adjustByDelta (event : option ResizeEvent)
    (panels : JsMap PanelData) (idBefore idAfter : string) (delta : Q)
    (prevSizes : list Q) (panelSizeBeforeCollapse : JsMap Q)
    : Result (Returned * JsMap Q) :=
  if Num.eqb delta 0 then Ok (PrevSizes, panelSizeBeforeCollapse)
  else
    let panelsArray := panelsMapToSortedArray panels in
    let nextSizes := prevSizes in
    let deltaApplied := 0 in
    (* Max-bounds check the panel being expanded first. *)
    let pivotId := if Num.ltb delta 0 then idAfter else idBefore in
    let index := findPanelIndex panelsArray pivotId in
    panel <- orThrow TypeError (getIndex panelsArray index) ;;
    prevSize <- orThrow Unmodelled (getIndex prevSizes index) ;;
    let nextSize := safeResizePanel panel (Qabs delta) prevSize event in
    if Num.eqb prevSize nextSize then Ok (PrevSizes, panelSizeBeforeCollapse)
    else
      let memo :=
        rememberCollapse panelSizeBeforeCollapse pivotId prevSize nextSize in
      let delta :=
        if Num.ltb delta 0 then prevSize - nextSize else nextSize - prevSize in
      let pivotId := if Num.ltb delta 0 then idBefore else idAfter in
      let index := findPanelIndex panelsArray pivotId in
      w <- shrinkLoop (loopFuel panelsArray) event panelsArray prevSizes delta
             index {| nextSizesOf := nextSizes;
                      deltaAppliedOf := deltaApplied;
                      collapseMapOf := memo |} ;;
      (* If we were unable to resize any of the panels, return the
         previous state. *)
      if Num.eqb (deltaAppliedOf w) 0 then Ok (PrevSizes, collapseMapOf w)
      else
        let pivotId := if Num.ltb delta 0 then idAfter else idBefore in
        let index := findPanelIndex panelsArray pivotId in
        prevSize <- orThrow Unmodelled (getIndex prevSizes index) ;;
        nextSizes <-
          setIndex (nextSizesOf w) index (prevSize + deltaAppliedOf w) ;;
        Ok (NextSizes nextSizes, collapseMapOf w).

(** ** getFlexGrow *)

Definition getFlexGrow (panels : JsMap PanelData) (id' : string)
    (sizes : list Q) : Result string :=
  if (mapSize panels =? 1)%nat then Ok "100"%string
  else
    let panelsArray := panelsMapToSortedArray panels in
    let index := findPanelIndex panelsArray id' in
    match getIndex sizes index with
    | None => Ok "0"%string
    | Some size => Num.toPrecision size PRECISION
    end.

End WithPrecision.

(** ** callPanelCallbacks *)

(** A call of one of a panel's hooks, named by the panel's id. *)
Inductive Call : Type :=
| OnResize (panelId : string) (size : Q)
| OnCollapse (panelId : string) (collapsed : bool).

(** [prevSize !== nextSize], [prevSize] possibly [undefined]. *)
Definition differs (prevSize : option Q) (nextSize : Q) : bool :=
  match prevSize with
  | None => true
  | Some s => negb (Num.eqb s nextSize)
  end.

(** [!prevSize] *)
Definition falsy (prevSize : option Q) : bool :=
  match prevSize with
  | None => true
  | Some s => Num.eqb s 0
  end.

(** [prevSize !== 0] *)
Definition notZero (prevSize : option Q) : bool :=
  match prevSize with
  | None => true
  | Some s => negb (Num.eqb s 0)
  end.

(** The hooks called for a panel whose size changed, in call order. *)
Definition notifyPanel (panel : PanelData) (prevSize : option Q)
    (nextSize : Q) : list Call :=
  (if onResize (callbacksRef panel) then [OnResize (id panel) nextSize] else [])
  ++
  (if (collapsible panel && onCollapse (callbacksRef panel))%bool then
     if (falsy prevSize && negb (Num.eqb nextSize 0))%bool
     then [OnCollapse (id panel) false]
     else if (notZero prevSize && Num.eqb nextSize 0)%bool
     then [OnCollapse (id panel) true]
     else []
   else []).

(** The callback of [nextSizes.forEach], at [index]. *)
Definition notifyAt (panelsArray : list PanelData) (prevSizes : list Q)
    (index : Z) (nextSize : Q) : Result (list Call) :=
  let prevSize := getIndex prevSizes index in
  if differs prevSize nextSize then
    panel <- orThrow TypeError (getIndex panelsArray index) ;;
    Ok (notifyPanel panel prevSize nextSize)
  else Ok [].

Fixpoint forEachFrom (panelsArray : list PanelData) (prevSizes : list Q)
    (index : Z) (nextSizes : list Q) : Result (list Call) :=
  match nextSizes with
  | [] => Ok []
  | nextSize :: rest =>
      calls <- notifyAt panelsArray prevSizes index nextSize ;;
      later <- forEachFrom panelsArray prevSizes (index + 1)%Z rest ;;
      Ok (calls ++ later)
  end.

(** The hook calls made, in order; a [TypeError] aborts the run. *)
Definition callPanelCallbacks (panelsArray : list PanelData)
    (prevSizes nextSizes : list Q) : Result (list Call) :=
  forEachFrom panelsArray prevSizes 0%Z nextSizes.

(** ** getBeforeAndAfterIds *)

(** The pair [[idBefore, idAfter]], [null] being [None]. *)
Definition getBeforeAndAfterIds (id' : string) (panelsArray : list PanelData)
    : Result (option string * option string) :=
  if (List.length panelsArray <? 2)%nat then Ok (None, None)
  else
    let index := findPanelIndex panelsArray id' in
    if (index <? 0)%Z then Ok (None, None)
    else
      let isLastPanel :=
        (index =? Z.of_nat (List.length panelsArray) - 1)%Z in
      idBefore <-
        (if isLastPanel
         then panel <- orThrow TypeError (getIndex panelsArray (index - 1)%Z) ;;
              Ok (id panel)
         else Ok id') ;;
      idAfter <-
        (if isLastPanel
         then Ok id'
         else panel <- orThrow TypeError (getIndex panelsArray (index + 1)%Z) ;;
              Ok (id panel)) ;;
      Ok (Some idBefore, Some idAfter).

(** ** The document and its queries *)

(** An element, as far as the attribute selectors of this file can tell:
    its attributes, each name once. *)
Definition Element : Type := list (string * string).

(** The elements of [document] in tree order, the order in which
    [querySelector] and [querySelectorAll] enumerate them. *)
Definition Document : Type := list Element.

(** A reference to an element: its position in the document, which is its
    identity, together with the element. *)
Definition Node : Type := (nat * Element)%type.

(** [element.getAttribute(name)], [null] being [None]. *)
Fixpoint getAttribute (element : Element) (name : string) : option string :=
  match element with
  | [] => None
  | (name', value) :: rest =>
      if String.eqb name' name then Some value else getAttribute rest name
  end.

Definition optionStringEqb (a : option string) (b : string) : bool :=
  match a with
  | Some a' => String.eqb a' b
  | None => false
  end.

(** The selector [[name]]. *)
Definition hasAttribute (name : string) (element : Element) : bool :=
  match getAttribute element name with
  | Some _ => true
  | None => false
  end.

(** The selector [[name="value"]]. *)
Definition attributeIs (name value : string) (element : Element) : bool :=
  optionStringEqb (getAttribute element name) value.

Fixpoint nodesFrom (position : nat) (document : Document) : list Node :=
  match document with
  | [] => []
  | element :: rest => (position, element) :: nodesFrom (S position) rest
  end.

(** [Array.from(document.querySelectorAll(selector))] for a selector given
    by its meaning on elements. *)
Definition querySelectorAll (document : Document) (selector : Element -> bool)
    : list Node :=
  filter (fun node => selector (snd node)) (nodesFrom 0 document).

(** [document.querySelector(selector)]: the first match, or [null]. *)
Definition querySelector (document : Document) (selector : Element -> bool)
    : option Node :=
  match querySelectorAll document selector with
  | [] => None
  | node :: _ => Some node
  end.

(** The characters that end or escape a double-quoted CSS string: the
    quote, the backslash, line feed, form feed and carriage return. *)
Definition endsCssString (c : ascii) : bool :=
  (Ascii.eqb c "034" || Ascii.eqb c "092" || Ascii.eqb c "010"
   || Ascii.eqb c "012" || Ascii.eqb c "013")%bool.

Fixpoint plainCssString (s : string) : bool :=
  match s with
  | EmptyString => true
  | String c rest => (negb (endsCssString c) && plainCssString rest)%bool
  end.

(** A selector the source builds as [[name="${value}"]]: for a value free
    of the characters above it selects the elements whose attribute is the
    value.  Other values give a selector that is malformed or means something
    else; the model stops there. *)
Definition interpolated (value : string) (selector : Element -> bool)
    : Result (Element -> bool) :=
  if plainCssString value then Ok selector else Throw Unmodelled.



Definition getResizeHandle (document : Document) (id' : string)
    : Result (option Node) :=
  selector <-
    interpolated id' (attributeIs "data-panel-resize-handle-id" id') ;;
  Ok (querySelector document selector).

Definition getResizeHandles (document : Document) : list Node :=
  querySelectorAll document (hasAttribute "data-panel-resize-handle-id").

(** [index || null]: [null] (here [None]) for the falsy index 0. *)
Definition getResizeHandleIndex (document : Document) (id' : string)
    : option Z :=
  let handles := getResizeHandles document in
  let index :=
    findIndex
      (fun handle =>
         optionStringEqb (getAttribute (snd handle) "data-panel-resize-handle-id")
           id')
      handles in
  if (index =? 0)%Z then None else Some index.

Definition getResizeHandlesForGroup (document : Document) (groupId : string)
    : Result (list Node) :=
  selector <-
    interpolated groupId
      (fun element =>
         (hasAttribute "data-panel-resize-handle-id" element
          && attributeIs "data-panel-group-id" groupId element)%bool) ;;
  Ok (querySelectorAll document selector).

(** [handles.indexOf(handle)]: nodes are compared by identity, and [null]
    is no element of the array. *)
Definition indexOfNode (handles : list Node) (handle : option Node) : Z :=
  match handle with
  | None => (-1)%Z
  | Some node => findIndex (fun h => Nat.eqb (fst h) (fst node)) handles
  end.

(** [panelsArray[index]?.id || null]: the empty string is falsy. *)
Definition idOrNull (panelsArray : list PanelData) (index : Z) : option string :=
  match getIndex panelsArray index with
  | None => None
  | Some panel => if String.eqb (id panel) "" then None else Some (id panel)
  end.

Definition getResizeHandlePanelIds (document : Document)
    (groupId handleId : string) (panelsArray : list PanelData)
    : Result (option string * option string) :=
  handle <- getResizeHandle document handleId ;;
  handles <- getResizeHandlesForGroup document groupId ;;
  let index := indexOfNode handles handle in
  let idBefore := idOrNull panelsArray index in
  let idAfter := idOrNull panelsArray (index + 1)%Z in
  Ok (idBefore, idAfter).

(** ** Vocabulary of the properties *)

(** The indices the loop has still to visit when it stands at [index]:
    downwards for a negative [delta], upwards otherwise. *)
Definition ahead (delta : Q) (index j : Z) : Prop :=
  if Num.ltb delta 0 then (j <= index)%Z else (index <= j)%Z.

(** The part of a sizes array on the shrinking side of the divider between
    the panels at [iBefore] and [iAfter]. *)
Definition shrinkSide (delta : Q) (iBefore iAfter : Z) (a : list Q) : list Q :=
  if Num.ltb delta 0 then firstn (Z.to_nat (iBefore + 1)) a
  else skipn (Z.to_nat iAfter) a.

(** The index of the panel that grows. *)
Definition pivotIndex (panelsArray : list PanelData) (idBefore idAfter : string)
    (delta : Q) : Z :=
  findPanelIndex panelsArray (if Num.ltb delta 0 then idAfter else idBefore).

(** The index at which the loop starts. *)
Definition startIndex (panelsArray : list PanelData) (idBefore idAfter : string)
    (delta : Q) : Z :=
  findPanelIndex panelsArray (if Num.ltb delta 0 then idBefore else idAfter).

(** [delta] as step 2 of [adjustByDelta] rewrites it, from the pivot's
    previous size and its constrained next size. *)
Definition clampedDelta (delta prevSize nextSize : Q) : Q :=
  if Num.ltb delta 0 then prevSize - nextSize else nextSize - prevSize.

(** The state in which the loop is entered. *)
Definition entryWalk (prevSizes : list Q) (memo : JsMap Q) : Walk :=
  {| nextSizesOf := prevSizes; deltaAppliedOf := 0; collapseMapOf := memo |}.

(** The loop as [adjustByDelta] runs it for the rewritten [delta']. *)
Definition runLoop (PRECISION : nat) (event : option ResizeEvent)
    (panelsArray : list PanelData) (idBefore idAfter : string)
    (prevSizes : list Q) (delta' : Q) (memo : JsMap Q) : Result Walk :=
  shrinkLoop PRECISION (loopFuel panelsArray) event panelsArray prevSizes
    delta' (startIndex panelsArray idBefore idAfter delta')
    (entryWalk prevSizes memo).

(** The collapse memo as step 2 of [adjustByDelta] leaves it. *)
Definition pivotMemo (idBefore idAfter : string) (delta pivotPrev pivotNext : Q)
    (memo : JsMap Q) : JsMap Q :=
  rememberCollapse memo (if Num.ltb delta 0 then idAfter else idBefore)
    pivotPrev pivotNext.

(** The previous size, possibly absent, is not the next size. *)
Definition changed (prevSize : option Q) (nextSize : Q) : Prop :=
  match prevSize with
  | None => True
  | Some s => ~ s == nextSize
  end.

(** The panel has a collapse hook that [callPanelCallbacks] may call. *)
Definition collapseHooked (panel : PanelData) : Prop :=
  collapsible panel = true /\ onCollapse (callbacksRef panel) = true.

(** From a previous size that is zero or absent to a nonzero size. *)
Definition expandTransition (prevSize : option Q) (nextSize : Q) : Prop :=
  (prevSize = None \/ exists s, prevSize = Some s /\ s == 0) /\ ~ nextSize == 0.

(** From a previous size that is not the number 0, a nonzero size or an
    absent one, to exactly 0. *)
Definition collapseTransition (prevSize : option Q) (nextSize : Q) : Prop :=
  (prevSize = None \/ exists s, prevSize = Some s /\ ~ s == 0) /\ nextSize == 0.

(** From a nonzero size to exactly 0. *)
Definition nonzeroSizeToZero (prevSize : option Q) (nextSize : Q) : Prop :=
  (exists s, prevSize = Some s /\ ~ s == 0) /\ nextSize == 0.

(** A size a panel may hold: exactly 0 if it is collapsible, or a size
    within its bounds. *)
Definition validSize (panel : PanelData) (size : Q) : Prop :=
  (collapsible panel = true /\ size == 0) \/
  minSize panel <= size <= maxSize panel.

(** Every panel has bounds [0 <= minSize <= maxSize] and holds a valid size. *)
Definition validState (panelsArray : list PanelData) (sizes : list Q) : Prop :=
  forall (j : Z) (panel : PanelData) (size : Q),
    getIndex panelsArray j = Some panel ->
    getIndex sizes j = Some size ->
    0 <= minSize panel <= maxSize panel /\ validSize panel size.

(** ** Sample groups *)

Definition bothHooks : PanelCallbacks := {| onCollapse := true; onResize := true |}.

Definition mkPanel (i : string) (ord lo hi : Q) (c : bool) : PanelData :=
  {| callbacksRef := bothHooks; collapsible := c; id := i;
     maxSize := hi; minSize := lo; order := ord |}.

Definition pointerEvent : option ResizeEvent := Some {| type := "mousemove" |}.
Definition keyboardEvent : option ResizeEvent := Some {| type := "keydown" |}.

(** The two panels of the specification's end-to-end scenario. *)
Definition groupAB : JsMap PanelData :=
  [("a", mkPanel "a" 0 10 100 false); ("b", mkPanel "b" 1 10 100 true)]%string.

(** Three panels that cannot collapse, all with [minSize] 10; [hi] is the
    [maxSize] of the first. *)
Definition groupABC (hi : Q) : JsMap PanelData :=
  [("a", mkPanel "a" 0 10 hi false); ("b", mkPanel "b" 1 10 100 false);
   ("c", mkPanel "c" 2 10 100 false)]%string.

(** Four panels that cannot collapse, all within 10 .. 100. *)
Definition groupABCD : JsMap PanelData :=
  [("a", mkPanel "a" 0 10 100 false); ("b", mkPanel "b" 1 10 100 false);
   ("c", mkPanel "c" 2 10 100 false); ("d", mkPanel "d" 3 10 100 false)]%string.

(** Three panels, the middle one collapsible. *)
Definition groupMiddleCollapsible : JsMap PanelData :=
  [("a", mkPanel "a" 0 10 100 false); ("b", mkPanel "b" 1 10 100 true);
   ("c", mkPanel "c" 2 10 100 false)]%string.

(** The two panels of the specification's notification scenario. *)
Definition panelsP1P2 : list PanelData :=
  [mkPanel "p1" 0 10 100 false; mkPanel "p2" 1 10 100 true]%string.

(** One collapsible panel, as mounted collapsed. *)
Definition panelsP : list PanelData := [mkPanel "p" 0 10 100 true]%string.

(** [p] does not come after [q] in the order of the panels. *)
Definition orderLe (p q : PanelData) : Prop := order p <= order q.

(** No two panels of the array carry the same id. *)
Definition uniqueIds (panelsArray : list PanelData) : Prop :=
  NoDup (map id panelsArray).

(** [panelSizeBeforeCollapse.get(key)] *)
Fixpoint mapGet {V : Type} (m : JsMap V) (k : string) : option V :=
  match m with
  | [] => None
  | (k', v) :: m' => if String.eqb k' k then Some v else mapGet m' k
  end.

(** A small document: a group [g] with the panels a, b, c and the handles
    h1, h2 between them, and a handle of another group. *)
Definition sampleDocument : Document :=
  [ [("data-panel-group-id", "g")];
    [("data-panel-id", "a")];
    [("data-panel-resize-handle-id", "h1"); ("data-panel-group-id", "g")];
    [("data-panel-id", "b")];
    [("data-panel-resize-handle-id", "h2"); ("data-panel-group-id", "g")];
    [("data-panel-id", "c")];
    [("data-panel-resize-handle-id", "x"); ("data-panel-group-id", "other")]
  ]%string.

(** The panels a, b, c inserted out of order. *)
Definition groupCAB : JsMap PanelData :=
  [("c", mkPanel "c" 2 10 100 false); ("a", mkPanel "a" 0 10 100 false);
   ("b", mkPanel "b" 1 10 100 true)]%string.

(** Three panels that cannot collapse; the first may not go below 28. *)
Definition groupNarrowA : JsMap PanelData :=
  [("a", mkPanel "a" 0 28 100 false); ("b", mkPanel "b" 1 10 100 false);
   ("c", mkPanel "c" 2 10 100 false)]%string.

(** ** safeResizePanel and adjustByDelta over binary64 numbers *)

(** The two functions again, with a JavaScript [number] as an IEEE 754
    binary64 value (a primitive float): [+] and [-] round to nearest, ties
    to even; [NaN], the infinities and the signed zeros are numbers; [<],
    [<=] and [===] are the IEEE comparisons.  As above, an array read that
    yields [undefined] ends the run with [Unmodelled]. *)
Module Binary64.

Import PrimFloat FloatOps SpecFloat FloatClass.

(** The number is neither [NaN] nor an infinity. *)
Definition isFinite (x : float) : bool :=
  match Prim2SF x with
  | S754_zero _ | S754_finite _ _ _ => true
  | S754_infinity _ | S754_nan => false
  end.

(** The exact value of a finite double, [m * 2^e] with its sign; [NaN] and
    the infinities, which have none, count as 0. *)
Definition value (x : float) : Q :=
  match Prim2SF x with
  | S754_finite s m e => (if s then Z.neg m # 1 else Z.pos m # 1) * (2 # 1) ^ e
  | _ => 0
  end.

(** Every entry of the array is a finite number. *)
Definition allFinite (a : list float) : Prop :=
  Forall (fun x => isFinite x = true) a.

(** The sum of the exact values of the entries. *)
Definition exactSum (a : list float) : Q :=
  fold_right (fun x s => value x + s) 0 a.

Definition isNaN (x : float) : bool := negb (x =? x)%float.

Definition isNegativeZero (x : float) : bool :=
  match classify x with
  | NZero => true
  | _ => false
  end.

(** [Math.max(a, b)]: [NaN] if either is, and [+0] is larger than [-0]. *)
Definition mathMax (a b : float) : float :=
  if (isNaN a || isNaN b)%bool then nan
  else if (a <? b)%float then b
  else if (b <? a)%float then a
  else if isNegativeZero a then b else a.

(** [Math.min(a, b)]: [NaN] if either is, and [-0] is smaller than [+0]. *)
Definition mathMin (a b : float) : float :=
  if (isNaN a || isNaN b)%bool then nan
  else if (a <? b)%float then a
  else if (b <? a)%float then b
  else if isNegativeZero a then a else b.

(** [x.toPrecision(p)]: a number that is not finite prints as
    [Number::toString] prints it, before [p] is checked; a finite one prints
    the digits of its exact value. *)
Definition toPrecision (x : float) (p : nat) : Result string :=
  match Prim2SF x with
  | S754_nan => Ok "NaN"%string
  | S754_infinity s => Ok (if s then "-Infinity" else "Infinity")%string
  | _ => Num.toPrecision (value x) p
  end.

Record PanelData : Type := {
  callbacksRef : PanelCallbacks;
  collapsible : bool;
  id : string;
  maxSize : float;
  minSize : float;
  order : float
}.

(** The comparator [(a, b) => a.order - b.order]; a result that is [NaN]
    counts as 0, and the sort is stable. *)
Fixpoint insertSorted (p : PanelData) (a : list PanelData) : list PanelData :=
  match a with
  | [] => [p]
  | q :: a' =>
      if (0 <? order p - order q)%float then q :: insertSorted p a'
      else p :: q :: a'
  end.

Definition sortByOrder (a : list PanelData) : list PanelData :=
  fold_right insertSorted [] a.

Definition panelsMapToSortedArray (panels : JsMap PanelData) : list PanelData :=
  sortByOrder (mapValues panels).

(** [prevSize + delta] is rounded; the clamp and the tests are exact. *)
Definition safeResizePanel (panel : PanelData) (delta prevSize : float)
    (event : option ResizeEvent) : float :=
  let nextSizeUnsafe := (prevSize + delta)%float in
  let clamped :=
    mathMin (maxSize panel) (mathMax (minSize panel) nextSizeUnsafe) in
  if collapsible panel then
    if (0 <? prevSize)%float then
      if (nextSizeUnsafe <=? 0)%float then 0%float else clamped
    else
      if negb (isKeyboardEvent event) then
        if (nextSizeUnsafe <? minSize panel)%float then 0%float else clamped
      else clamped
  else clamped.

(** The array object [prevSizes] itself, or the copy [nextSizes]. *)
Inductive Returned : Type :=
| PrevSizes
| NextSizes (nextSizes : list float).

Definition findPanelIndex (panelsArray : list PanelData) (pivotId : string) : Z :=
  findIndex (fun panel => String.eqb (id panel) pivotId) panelsArray.

Definition rememberCollapse (panelSizeBeforeCollapse : JsMap float)
    (panelId : string) (prevSize nextSize : float) : JsMap float :=
  if ((nextSize =? 0)%float && (0 <? prevSize)%float)%bool
  then mapSet panelSizeBeforeCollapse panelId prevSize
  else panelSizeBeforeCollapse.

(** The local state of the [while (true)] loop. *)
Record Walk : Type := {
  nextSizesOf : list float;
  deltaAppliedOf : float;
  collapseMapOf : JsMap float
}.

Section WithPrecision.

Variable PRECISION : nat.

(** The first half of the loop body; [prevSize - nextSize] and the addition
    to [deltaApplied] are rounded. *)
Definition shrinkPanelAt (event : option ResizeEvent) (panel : PanelData)
    (prevSize delta : float) (index : Z) (w : Walk) : Result (Walk * bool) :=
  let nextSize := safeResizePanel panel (0 - abs delta)%float prevSize event in
  if negb (prevSize =? nextSize)%float then
    let memo :=
      rememberCollapse (collapseMapOf w) (id panel) prevSize nextSize in
    let deltaApplied := (deltaAppliedOf w + (prevSize - nextSize))%float in
    nextSizes <- setIndex (nextSizesOf w) index nextSize ;;
    applied <- toPrecision deltaApplied PRECISION ;;
    wanted <- toPrecision delta PRECISION ;;
    Ok ({| nextSizesOf := nextSizes;
           deltaAppliedOf := deltaApplied;
           collapseMapOf := memo |},
        Num.strGe applied wanted)
  else Ok (w, false).

(** The [while (true)] loop, entered at [index]; each level of [fuel] is one
    iteration. *)
Fixpoint shrinkLoop (fuel : nat) (event : option ResizeEvent)
    (panelsArray : list PanelData) (prevSizes : list float) (delta : float)
    (index : Z) (w : Walk) : Result Walk :=
  match fuel with
  | O => Throw OutOfFuel
  | S fuel' =>
      panel <- orThrow TypeError (getIndex panelsArray index) ;;
      prevSize <- orThrow Unmodelled (getIndex prevSizes index) ;;
      '(w, stop) <- shrinkPanelAt event panel prevSize delta index w ;;
      if (stop : bool) then Ok w
      else if (delta <? 0)%float then
        let index := (index - 1)%Z in
        if (index <? 0)%Z then Ok w
        else shrinkLoop fuel' event panelsArray prevSizes delta index w
      else
        let index := (index + 1)%Z in
        if (Z.of_nat (List.length panelsArray) <=? index)%Z then Ok w
        else shrinkLoop fuel' event panelsArray prevSizes delta index w
  end.

Definition loopFuel (panelsArray : list PanelData) : nat :=
  S (List.length panelsArray).

Definition adjustByDelta (event : option ResizeEvent)
    (panels : JsMap PanelData) (idBefore idAfter : string) (delta : float)
    (prevSizes : list float) (panelSizeBeforeCollapse : JsMap float)
    : Result (Returned * JsMap float) :=
  if (delta =? 0)%float then Ok (PrevSizes, panelSizeBeforeCollapse)
  else
    let panelsArray := panelsMapToSortedArray panels in
    let nextSizes := prevSizes in
    let deltaApplied := 0%float in
    (* Max-bounds check the panel being expanded first. *)
    let pivotId := if (delta <? 0)%float then idAfter else idBefore in
    let index := findPanelIndex panelsArray pivotId in
    panel <- orThrow TypeError (getIndex panelsArray index) ;;
    prevSize <- orThrow Unmodelled (getIndex prevSizes index) ;;
    let nextSize := safeResizePanel panel (abs delta) prevSize event in
    if (prevSize =? nextSize)%float then Ok (PrevSizes, panelSizeBeforeCollapse)
    else
      let memo :=
        rememberCollapse panelSizeBeforeCollapse pivotId prevSize nextSize in
      let delta :=
        if (delta <? 0)%float then (prevSize - nextSize)%float
        else (nextSize - prevSize)%float in
      let pivotId := if (delta <? 0)%float then idBefore else idAfter in
      let index := findPanelIndex panelsArray pivotId in
      w <- shrinkLoop (loopFuel panelsArray) event panelsArray prevSizes delta
             index {| nextSizesOf := nextSizes;
                      deltaAppliedOf := deltaApplied;
                      collapseMapOf := memo |} ;;
      (* If we were unable to resize any of the panels, return the
         previous state. *)
      if (deltaAppliedOf w =? 0)%float then Ok (PrevSizes, collapseMapOf w)
      else
        (* Adjust the pivot panel, by the amount the others gave. *)
        let pivotId := if (delta <? 0)%float then idAfter else idBefore in
        let index := findPanelIndex panelsArray pivotId in
        prevSize <- orThrow Unmodelled (getIndex prevSizes index) ;;
        nextSizes <-
          setIndex (nextSizesOf w) index (prevSize + deltaAppliedOf w)%float ;;
        Ok (NextSizes nextSizes, collapseMapOf w).

End WithPrecision.

(** *** The rounding errors of a run *)

(** What rounding adds to the exact sum [x + y], and to the exact
    difference [x - y]. *)
Definition addError (x y : float) : Q :=
  value (x + y)%float - (value x + value y).
Definition subError (x y : float) : Q :=
  value (x - y)%float - (value x - value y).

(** The indices the loop has still to visit when it stands at [index]. *)
Definition ahead (delta : float) (index j : Z) : Prop :=
  if (delta <? 0)%float then (j <= index)%Z else (index <= j)%Z.

(** The rounding error of [deltaApplied += prevSize - nextSize] in the visit
    of one panel; 0 if the visit leaves the size as it is. *)
Definition visitError (event : option ResizeEvent) (panel : PanelData)
    (prevSize delta : float) (w : Walk) : Q :=
  let nextSize := safeResizePanel panel (0 - abs delta)%float prevSize event in
  if negb (prevSize =? nextSize)%float
  then subError prevSize nextSize
       + addError (deltaAppliedOf w) (prevSize - nextSize)%float
  else 0.

Section RoundingError.

Variable PRECISION : nat.

(** The rounding errors of the visits of the loop, added up along the
    iterations of [shrinkLoop]. *)
Fixpoint loopError (fuel : nat) (event : option ResizeEvent)
    (panelsArray : list PanelData) (prevSizes : list float) (delta : float)
    (index : Z) (w : Walk) : Result Q :=
  match fuel with
  | O => Throw OutOfFuel
  | S fuel' =>
      panel <- orThrow TypeError (getIndex panelsArray index) ;;
      prevSize <- orThrow Unmodelled (getIndex prevSizes index) ;;
      let error := visitError event panel prevSize delta w in
      '(w, stop) <- shrinkPanelAt PRECISION event panel prevSize delta index w ;;
      if (stop : bool) then Ok error
      else if (delta <? 0)%float then
        let index := (index - 1)%Z in
        if (index <? 0)%Z then Ok error
        else
          rest <- loopError fuel' event panelsArray prevSizes delta index w ;;
          Ok (error + rest)
      else
        let index := (index + 1)%Z in
        if (Z.of_nat (List.length panelsArray) <=? index)%Z then Ok error
        else
          rest <- loopError fuel' event panelsArray prevSizes delta index w ;;
          Ok (error + rest)
  end.

(** The rounding errors of a call of [adjustByDelta] that returns a new
    array: those of the loop and that of the last statement,
    [prevSizes[index] + deltaApplied]. *)
Definition roundingError (event : option ResizeEvent)
    (panels : JsMap PanelData) (idBefore idAfter : string) (delta : float)
    (prevSizes : list float) (panelSizeBeforeCollapse : JsMap float)
    : Result Q :=
  let panelsArray := panelsMapToSortedArray panels in
  let pivotId := if (delta <? 0)%float then idAfter else idBefore in
  let index := findPanelIndex panelsArray pivotId in
  panel <- orThrow TypeError (getIndex panelsArray index) ;;
  prevSize <- orThrow Unmodelled (getIndex prevSizes index) ;;
  let nextSize := safeResizePanel panel (abs delta) prevSize event in
  let memo :=
    rememberCollapse panelSizeBeforeCollapse pivotId prevSize nextSize in
  let delta :=
    if (delta <? 0)%float then (prevSize - nextSize)%float
    else (nextSize - prevSize)%float in
  let pivotId := if (delta <? 0)%float then idBefore else idAfter in
  let index := findPanelIndex panelsArray pivotId in
  let entry := {| nextSizesOf := prevSizes;
                  deltaAppliedOf := 0%float;
                  collapseMapOf := memo |} in
  w <- shrinkLoop PRECISION (loopFuel panelsArray) event panelsArray prevSizes
         delta index entry ;;
  error <- loopError (loopFuel panelsArray) event panelsArray prevSizes
             delta index entry ;;
  let pivotId := if (delta <? 0)%float then idAfter else idBefore in
  let index := findPanelIndex panelsArray pivotId in
  prevSize <- orThrow Unmodelled (getIndex prevSizes index) ;;
  Ok (error + addError prevSize (deltaAppliedOf w)).

End RoundingError.

(** *** Sample groups *)

Definition mkPanel (i : string) (ord lo hi : float) (c : bool) : PanelData :=
  {| callbacksRef := bothHooks; collapsible := c; id := i;
     maxSize := hi; minSize := lo; order := ord |}.

(** Three panels that cannot collapse; the first lies within [lo] .. [hi],
    the others within 10 .. 100. *)
Definition groupABC (lo hi : float) : JsMap PanelData :=
  [("a", mkPanel "a" 0 lo hi false); ("b", mkPanel "b" 1 10 100 false);
   ("c", mkPanel "c" 2 10 100 false)]%string.

(** Three panels, the middle one collapsible. *)
Definition groupMiddleCollapsible : JsMap PanelData :=
  [("a", mkPanel "a" 0 10 100 false); ("b", mkPanel "b" 1 10 100 true);
   ("c", mkPanel "c" 2 10 100 false)]%string.

End Binary64.

(** * Properties *)

(** ** Numbers: the boolean tests decide the order of [Q] *)

Lemma Num_ltb_lt (a b : Q) : Num.ltb a b = true <-> a < b.
Proof.
  unfold Num.ltb. rewrite negb_true_iff, <- not_true_iff_false, Qle_bool_iff.
  split; intro H; lra.
Qed.

Lemma Num_ltb_ge (a b : Q) : Num.ltb a b = false <-> b <= a.
Proof.
  unfold Num.ltb. rewrite negb_false_iff, Qle_bool_iff. reflexivity.
Qed.

Lemma Num_leb_le (a b : Q) : Num.leb a b = true <-> a <= b.
Proof. apply Qle_bool_iff. Qed.

Lemma Num_leb_gt (a b : Q) : Num.leb a b = false <-> b < a.
Proof.
  unfold Num.leb. rewrite <- not_true_iff_false, Qle_bool_iff.
  split; intro H; lra.
Qed.

Lemma Num_eqb_eq (a b : Q) : Num.eqb a b = true <-> a == b.
Proof. apply Qeq_bool_iff. Qed.

Lemma Num_eqb_neq (a b : Q) : Num.eqb a b = false <-> ~ a == b.
Proof.
  unfold Num.eqb. rewrite <- not_true_iff_false, Qeq_bool_iff. reflexivity.
Qed.

(** Turn every boolean test in the context into its proposition. *)
Ltac num_props :=
  repeat match goal with
    | H : Num.ltb _ _ = true |- _ => apply Num_ltb_lt in H
    | H : Num.ltb _ _ = false |- _ => apply Num_ltb_ge in H
    | H : Num.leb _ _ = true |- _ => apply Num_leb_le in H
    | H : Num.leb _ _ = false |- _ => apply Num_leb_gt in H
    | H : Num.eqb _ _ = true |- _ => apply Num_eqb_eq in H
    | H : Num.eqb _ _ = false |- _ => apply Num_eqb_neq in H
    end.

(** [Math.min(hi, Math.max(lo, x))] is [x] pushed into [lo .. hi]. *)
Lemma clamp_cases (lo hi x : Q) :
  (hi <= Qmax lo x /\ Qmin hi (Qmax lo x) == hi) \/
  (x <= lo /\ lo <= hi /\ Qmin hi (Qmax lo x) == lo) \/
  (lo <= x /\ x <= hi /\ Qmin hi (Qmax lo x) == x).
Proof.
  destruct (Q.max_spec lo x) as [[Hlt Hmax] | [Hle Hmax]];
    destruct (Q.min_spec hi (Qmax lo x)) as [[Hlt' Hmin] | [Hle' Hmin]];
    rewrite Hmax in *; rewrite Hmin.
  - left. split; [lra | reflexivity].
  - right; right. repeat split; lra.
  - left. split; [lra | reflexivity].
  - right; left. repeat split; lra.
Qed.

Lemma clamp_bounds (lo hi x : Q) :
  lo <= hi -> lo <= Qmin hi (Qmax lo x) <= hi.
Proof.
  intro H. destruct (clamp_cases lo hi x) as [[H1 E] | [[H1 [H2 E]] | [H1 [H2 E]]]];
    rewrite E; lra.
Qed.

(** ** safeResizePanel *)

(** The size [safeResizePanel] returns is 0, and then the panel is
    collapsible, or lies within the panel's bounds. *)
Lemma safeResizePanel_bounds (panel : PanelData) (delta prevSize : Q)
    (event : option ResizeEvent) :
  minSize panel <= maxSize panel ->
  (collapsible panel = true /\ safeResizePanel panel delta prevSize event = 0) \/
  minSize panel <= safeResizePanel panel delta prevSize event <= maxSize panel.
Proof.
  intro Hb. unfold safeResizePanel.
  pose proof (clamp_bounds (minSize panel) (maxSize panel) (prevSize + delta) Hb).
  destruct (collapsible panel); [| right; assumption].
  destruct (Num.ltb 0 prevSize).
  - destruct (Num.leb (prevSize + delta) 0); [left; split; reflexivity | right; assumption].
  - destruct (negb (isKeyboardEvent event)); [| right; assumption].
    destruct (Num.ltb (prevSize + delta) (minSize panel));
      [left; split; reflexivity | right; assumption].
Qed.

(** C6. A collapsible panel at size 0: a growth delta that is not from the
    keyboard and leaves [prevSize + delta] below [minSize] returns exactly 0;
    a growth delta from the keyboard returns the clamped size, which is at
    least [minSize] and at most [maxSize], never a value below [minSize]. *)
Theorem safeResizePanel_collapse_hysteresis (panel : PanelData)
    (delta prevSize : Q) (event : option ResizeEvent) :
  collapsible panel = true ->
  prevSize == 0 ->
  minSize panel <= maxSize panel ->
  (isKeyboardEvent event = false ->
   prevSize + delta < minSize panel ->
   safeResizePanel panel delta prevSize event = 0) /\
  (isKeyboardEvent event = true ->
   0 < delta ->
   safeResizePanel panel delta prevSize event
     = Qmin (maxSize panel) (Qmax (minSize panel) (prevSize + delta)) /\
   minSize panel <= safeResizePanel panel delta prevSize event <= maxSize panel).
Proof.
  intros Hc H0 Hb. unfold safeResizePanel. rewrite Hc.
  assert (Hlt : Num.ltb 0 prevSize = false) by (apply Num_ltb_ge; lra).
  rewrite Hlt. split.
  - intros Hk Hsmall. rewrite Hk. cbn [negb].
    apply Num_ltb_lt in Hsmall. rewrite Hsmall. reflexivity.
  - intros Hk _. rewrite Hk. cbn [negb]. split; [reflexivity |].
    apply clamp_bounds; assumption.
Qed.

(** ** Arrays *)

Lemma getIndex_negative {A : Type} (a : list A) (i : Z) :
  (i < 0)%Z -> getIndex a i = None.
Proof.
  intro H. unfold getIndex. apply Z.ltb_lt in H. rewrite H. reflexivity.
Qed.

Lemma getIndex_Some_range {A : Type} (a : list A) (i : Z) (v : A) :
  getIndex a i = Some v -> (0 <= i < Z.of_nat (List.length a))%Z.
Proof.
  unfold getIndex. destruct (i <? 0)%Z eqn:E; [discriminate |].
  intro H. apply Z.ltb_ge in E.
  assert (Hn : (Z.to_nat i < List.length a)%nat)
    by (apply nth_error_Some; congruence).
  lia.
Qed.

Lemma getIndex_in_range {A : Type} (a : list A) (i : Z) :
  (0 <= i < Z.of_nat (List.length a))%Z -> exists v, getIndex a i = Some v.
Proof.
  intro H. unfold getIndex.
  assert (E : (i <? 0)%Z = false) by (apply Z.ltb_ge; lia). rewrite E.
  destruct (nth_error a (Z.to_nat i)) eqn:N; [eauto |].
  apply nth_error_None in N. lia.
Qed.

Lemma findIndexFrom_absent {A : Type} (f : A -> bool) (a : list A) (i : Z) :
  (forall x, In x a -> f x = false) -> findIndexFrom f a i = (-1)%Z.
Proof.
  revert i. induction a as [| x a IH]; intros i H; simpl; [reflexivity |].
  rewrite (H x (or_introl eq_refl)). apply IH.
  intros y Hy. apply H. right. exact Hy.
Qed.

(** ** panelsMapToSortedArray keeps the panels *)

Lemma insertSorted_In (p x : PanelData) (a : list PanelData) :
  In x (insertSorted p a) <-> x = p \/ In x a.
Proof.
  induction a as [| q a IH]; simpl.
  - intuition congruence.
  - destruct (Num.leb (order p - order q) 0); simpl; [intuition congruence |].
    rewrite IH. intuition congruence.
Qed.

Lemma sortByOrder_In (x : PanelData) (a : list PanelData) :
  In x (sortByOrder a) <-> In x a.
Proof.
  induction a as [| p a IH]; simpl; [reflexivity |].
  rewrite insertSorted_In, IH. intuition congruence.
Qed.

Lemma insertSorted_length (p : PanelData) (a : list PanelData) :
  List.length (insertSorted p a) = S (List.length a).
Proof.
  induction a as [| q a IH]; simpl; [reflexivity |].
  destruct (Num.leb (order p - order q) 0); simpl; [reflexivity |].
  rewrite IH. reflexivity.
Qed.

Lemma panelsMapToSortedArray_length (panels : JsMap PanelData) :
  List.length (panelsMapToSortedArray panels) = mapSize panels.
Proof.
  unfold panelsMapToSortedArray, mapValues, mapSize, sortByOrder.
  induction panels as [| kv panels IH]; simpl; [reflexivity |].
  rewrite insertSorted_length, IH. reflexivity.
Qed.

(** ** getFlexGrow *)

(** C10. In a collection of more than one panel, [getFlexGrow] for an id
    that no panel of the collection carries returns the string "0", as for a
    panel whose size is not recorded yet; it does not throw. *)
Theorem getFlexGrow_unknown_id (PRECISION : nat) (panels : JsMap PanelData)
    (id' : string) (sizes : list Q) :
  (1 < mapSize panels)%nat ->
  (forall panel, In panel (mapValues panels) -> id panel <> id') ->
  getFlexGrow PRECISION panels id' sizes = Ok "0"%string.
Proof.
  intros Hsize Habsent. unfold getFlexGrow.
  assert (E : (mapSize panels =? 1)%nat = false) by (apply Nat.eqb_neq; lia).
  rewrite E. unfold findPanelIndex, findIndex.
  rewrite findIndexFrom_absent.
  - rewrite getIndex_negative by lia. reflexivity.
  - intros panel Hin. apply String.eqb_neq. apply Habsent.
    unfold panelsMapToSortedArray in Hin.
    apply (proj1 (sortByOrder_In panel (mapValues panels))). exact Hin.
Qed.

Lemma getFlexGrow_unknown_id_witness :
  getFlexGrow 10 groupAB "zz" [60; 40] = Ok "0"%string.
Proof.
  apply getFlexGrow_unknown_id.
  - simpl. lia.
  - intros panel Hin. simpl in Hin.
    destruct Hin as [<- | [<- | []]]; simpl; discriminate.
Defined.

(** ** Writes into an array *)

Lemma bind_Ok {A B : Type} (m : Result A) (k : A -> Result B) (b : B) :
  bind m k = Ok b -> exists a, m = Ok a /\ k a = Ok b.
Proof. destruct m as [a | e]; simpl; [eauto | discriminate]. Qed.

Lemma orThrow_Ok {A : Type} (e : Exn) (o : option A) (a : A) :
  orThrow e o = Ok a -> o = Some a.
Proof. destruct o; simpl; congruence. Qed.

Lemma setNth_length {A : Type} (a : list A) (n : nat) (v : A) :
  List.length (setNth a n v) = List.length a.
Proof.
  revert n. induction a as [| x a IH]; intros [| n]; simpl; auto.
Qed.

Lemma nth_error_setNth_same {A : Type} (a : list A) (n : nat) (v : A) :
  (n < List.length a)%nat -> nth_error (setNth a n v) n = Some v.
Proof.
  revert n. induction a as [| x a IH]; intros [| n] H; simpl in *;
    try lia; [reflexivity | apply IH; lia].
Qed.

Lemma nth_error_setNth_other {A : Type} (a : list A) (n m : nat) (v : A) :
  n <> m -> nth_error (setNth a n v) m = nth_error a m.
Proof.
  revert n m. induction a as [| x a IH]; intros [| n] [| m] H; simpl;
    try reflexivity; try congruence.
  apply IH. congruence.
Qed.

Lemma sum_setNth (a : list Q) (n : nat) (u v : Q) :
  nth_error a n = Some u -> sum (setNth a n v) == sum a - u + v.
Proof.
  revert n. induction a as [| x a IH]; intros [| n] H; simpl in *;
    try discriminate.
  - injection H as ->. ring.
  - rewrite (IH n H). ring.
Qed.

Lemma setIndex_Ok {A : Type} (a a' : list A) (i : Z) (v : A) :
  setIndex a i v = Ok a' ->
  (0 <= i < Z.of_nat (List.length a))%Z /\ a' = setNth a (Z.to_nat i) v.
Proof.
  unfold setIndex.
  destruct ((0 <=? i)%Z && (i <? Z.of_nat (List.length a))%Z)%bool eqn:E;
    [| discriminate].
  intro H. injection H as <-. apply andb_true_iff in E as [E1 E2].
  apply Z.leb_le in E1. apply Z.ltb_lt in E2. split; [lia | reflexivity].
Qed.

Lemma setIndex_in_range {A : Type} (a : list A) (i : Z) (v : A) :
  (0 <= i < Z.of_nat (List.length a))%Z ->
  setIndex a i v = Ok (setNth a (Z.to_nat i) v).
Proof.
  intro H. unfold setIndex.
  assert (E : ((0 <=? i)%Z && (i <? Z.of_nat (List.length a))%Z)%bool = true).
  { apply andb_true_iff. split; [apply Z.leb_le | apply Z.ltb_lt]; lia. }
  rewrite E. reflexivity.
Qed.

Lemma getIndex_setNth_same {A : Type} (a : list A) (i : Z) (v : A) :
  (0 <= i < Z.of_nat (List.length a))%Z ->
  getIndex (setNth a (Z.to_nat i) v) i = Some v.
Proof.
  intro H. unfold getIndex.
  assert (E : (i <? 0)%Z = false) by (apply Z.ltb_ge; lia). rewrite E.
  apply nth_error_setNth_same. lia.
Qed.

Lemma getIndex_setNth_other {A : Type} (a : list A) (i j : Z) (v : A) :
  (0 <= i)%Z -> i <> j ->
  getIndex (setNth a (Z.to_nat i) v) j = getIndex a j.
Proof.
  intros Hi Hne. unfold getIndex.
  destruct (j <? 0)%Z eqn:E; [reflexivity |]. apply Z.ltb_ge in E.
  apply nth_error_setNth_other. lia.
Qed.

Lemma getIndex_nth_error {A : Type} (a : list A) (i : Z) :
  (0 <= i)%Z -> getIndex a i = nth_error a (Z.to_nat i).
Proof.
  intro H. unfold getIndex.
  assert (E : (i <? 0)%Z = false) by (apply Z.ltb_ge; lia).
  rewrite E. reflexivity.
Qed.

(** ** Lookups that succeed *)

Lemma findIndexFrom_range {A : Type} (f : A -> bool) (a : list A) (i : Z) :
  (0 <= i)%Z ->
  findIndexFrom f a i = (-1)%Z \/
  (i <= findIndexFrom f a i < i + Z.of_nat (List.length a))%Z.
Proof.
  revert i. induction a as [| x a IH]; intros i Hi; simpl; [left; reflexivity |].
  destruct (f x); [right; lia |].
  destruct (IH (i + 1)%Z) as [E | E]; [lia | left; exact E | right; lia].
Qed.

Lemma findPanelIndex_found (panelsArray : list PanelData) (pivotId : string) :
  (0 <= findPanelIndex panelsArray pivotId)%Z ->
  (0 <= findPanelIndex panelsArray pivotId < Z.of_nat (List.length panelsArray))%Z.
Proof.
  unfold findPanelIndex, findIndex. intro H.
  destruct (findIndexFrom_range (fun panel => String.eqb (id panel) pivotId)
              panelsArray 0) as [E | E]; lia.
Qed.

Lemma toPrecision_Ok (x : Q) (p : nat) :
  (1 <= p <= 100)%nat -> exists s, Num.toPrecision x p = Ok s.
Proof.
  intro H. unfold Num.toPrecision.
  assert (E : ((p <? 1)%nat || (100 <? p)%nat)%bool = false).
  { apply orb_false_iff. split; apply Nat.ltb_ge; lia. }
  rewrite E.
  match goal with
  | |- context [let '(m, e) := ?c in _] => destruct c as [m e]
  end.
  repeat match goal with
    | |- context [if ?c then _ else _] => destruct c
    end; eauto.
Qed.

(** ** The loop of adjustByDelta *)

Section ShrinkLoop.

Variable PRECISION : nat.
Variable event : option ResizeEvent.
Variable panelsArray : list PanelData.
Variable prevSizes : list Q.
Variable delta : Q.

(** One visit writes at most the entry at [index]; what leaves the array
    is added to [deltaApplied]. *)
Lemma shrinkPanelAt_effect (panel : PanelData) (prevSize : Q) (index : Z)
    (w w1 : Walk) (stop : bool) :
  shrinkPanelAt PRECISION event panel prevSize delta index w = Ok (w1, stop) ->
  getIndex (nextSizesOf w) index = Some prevSize ->
  List.length (nextSizesOf w1) = List.length (nextSizesOf w) /\
  (forall j, j <> index ->
     getIndex (nextSizesOf w1) j = getIndex (nextSizesOf w) j) /\
  exists v,
    getIndex (nextSizesOf w1) index = Some v /\
    v == safeResizePanel panel (0 - Qabs delta) prevSize event /\
    deltaAppliedOf w1 == deltaAppliedOf w + (prevSize - v) /\
    sum (nextSizesOf w1) == sum (nextSizesOf w) - prevSize + v.
Proof.
  unfold shrinkPanelAt. intros H Hget.
  set (nextSize := safeResizePanel panel (0 - Qabs delta) prevSize event) in *.
  destruct (Num.eqb prevSize nextSize) eqn:E; cbn [negb] in H.
  - injection H as <- <-. apply Num_eqb_eq in E.
    split; [reflexivity |]. split; [reflexivity |].
    exists prevSize. repeat split; [assumption | assumption | ring | ring].
  - apply bind_Ok in H as (nextSizes & Hset & H).
    apply bind_Ok in H as (applied & _ & H).
    apply bind_Ok in H as (wanted & _ & H).
    injection H as <- <-. cbn [nextSizesOf deltaAppliedOf].
    apply setIndex_Ok in Hset as [Hrange ->].
    split; [apply setNth_length |]. split.
    + intros j Hj. apply getIndex_setNth_other; [lia | congruence].
    + exists nextSize. split; [apply getIndex_setNth_same; exact Hrange |].
      split; [reflexivity |]. split; [reflexivity |].
      apply sum_setNth. rewrite <- getIndex_nth_error by lia. exact Hget.
Qed.

Lemma ahead_self (index : Z) : ahead delta index index.
Proof. unfold ahead. destruct (Num.ltb delta 0); lia. Qed.

(** The loop leaves every index it has passed or never reaches as it
    found it, and the budget it takes from the array is [deltaApplied]. *)
Lemma shrinkLoop_effect (fuel : nat) :
  forall (index : Z) (w w' : Walk),
    shrinkLoop PRECISION fuel event panelsArray prevSizes delta index w = Ok w' ->
    (forall j, ahead delta index j ->
       getIndex (nextSizesOf w) j = getIndex prevSizes j) ->
    List.length (nextSizesOf w') = List.length (nextSizesOf w) /\
    sum (nextSizesOf w') + deltaAppliedOf w'
      == sum (nextSizesOf w) + deltaAppliedOf w /\
    (forall j, ~ ahead delta index j ->
       getIndex (nextSizesOf w') j = getIndex (nextSizesOf w) j).
Proof.
  induction fuel as [| fuel IH]; intros index w w' H Hahead;
    [discriminate |].
  cbn [shrinkLoop] in H.
  apply bind_Ok in H as (panel & Hpanel & H).
  apply bind_Ok in H as (prevSize & Hprev & H).
  apply orThrow_Ok in Hprev.
  apply bind_Ok in H as ([w1 stop] & Hvisit & H).
  assert (Hcur : getIndex (nextSizesOf w) index = Some prevSize)
    by (rewrite Hahead by apply ahead_self; exact Hprev).
  destruct (shrinkPanelAt_effect _ _ _ _ _ _ Hvisit Hcur)
    as (Hlen & Hother & v & Hv & _ & Happlied & Hsum).
  assert (Hdone :
    List.length (nextSizesOf w1) = List.length (nextSizesOf w) /\
    sum (nextSizesOf w1) + deltaAppliedOf w1
      == sum (nextSizesOf w) + deltaAppliedOf w /\
    (forall j, ~ ahead delta index j ->
       getIndex (nextSizesOf w1) j = getIndex (nextSizesOf w) j)).
  { split; [exact Hlen |]. split; [rewrite Hsum, Happlied; ring |].
    intros j Hj. apply Hother. intros ->. apply Hj, ahead_self. }
  assert (Hnext : forall index',
    (forall j, ahead delta index' j -> ahead delta index j /\ j <> index) ->
    shrinkLoop PRECISION fuel event panelsArray prevSizes delta index' w1 = Ok w' ->
    List.length (nextSizesOf w') = List.length (nextSizesOf w) /\
    sum (nextSizesOf w') + deltaAppliedOf w'
      == sum (nextSizesOf w) + deltaAppliedOf w /\
    (forall j, ~ ahead delta index j ->
       getIndex (nextSizesOf w') j = getIndex (nextSizesOf w) j)).
  { intros index' Hsub Hrec.
    destruct (IH index' w1 w' Hrec) as (Hlen' & Hsum' & Hframe').
    - intros j Hj. destruct (Hsub j Hj) as [Hj1 Hj2].
      rewrite Hother by exact Hj2. apply Hahead. exact Hj1.
    - split; [congruence |]. split.
      + rewrite Hsum', Hsum, Happlied. ring.
      + intros j Hj. rewrite Hframe'.
        * apply Hother. intros ->. apply Hj, ahead_self.
        * intro Hj'. apply Hj. apply (Hsub j Hj'). }
  cbn beta iota in H.
  destruct stop; [injection H as <-; exact Hdone |].
  unfold ahead in Hnext, Hdone |- *.
  destruct (Num.ltb delta 0) eqn:Hdir.
  - destruct (index - 1 <? 0)%Z; [injection H as <-; exact Hdone |].
    apply (Hnext (index - 1)%Z); [intros j Hj; lia | exact H].
  - destruct (Z.of_nat (List.length panelsArray) <=? index + 1)%Z;
      [injection H as <-; exact Hdone |].
    apply (Hnext (index + 1)%Z); [intros j Hj; lia | exact H].
Qed.

(** The entry a visit leaves at [index] is the one it found or the
    constrained size. *)
Lemma shrinkPanelAt_entry (panel : PanelData) (prevSize : Q) (index : Z)
    (w w1 : Walk) (stop : bool) :
  shrinkPanelAt PRECISION event panel prevSize delta index w = Ok (w1, stop) ->
  getIndex (nextSizesOf w1) index = getIndex (nextSizesOf w) index \/
  getIndex (nextSizesOf w1) index
  = Some (safeResizePanel panel (0 - Qabs delta) prevSize event).
Proof.
  unfold shrinkPanelAt. intro H.
  destruct (negb (Num.eqb prevSize
                    (safeResizePanel panel (0 - Qabs delta) prevSize event))).
  - apply bind_Ok in H as (nextSizes & Hset & H).
    apply bind_Ok in H as (applied & _ & H).
    apply bind_Ok in H as (wanted & _ & H).
    injection H as <- <-. cbn [nextSizesOf].
    apply setIndex_Ok in Hset as [Hrange ->].
    right. apply getIndex_setNth_same. exact Hrange.
  - injection H as <- <-. left. reflexivity.
Qed.

(** After the loop every entry is the one the loop found or the constrained
    size of its panel. *)
Lemma shrinkLoop_entries (fuel : nat) :
  forall (index : Z) (w w' : Walk),
    shrinkLoop PRECISION fuel event panelsArray prevSizes delta index w = Ok w' ->
    (forall j, ahead delta index j ->
       getIndex (nextSizesOf w) j = getIndex prevSizes j) ->
    forall j,
      getIndex (nextSizesOf w') j = getIndex (nextSizesOf w) j \/
      exists panel prevSize,
        getIndex panelsArray j = Some panel /\
        getIndex prevSizes j = Some prevSize /\
        getIndex (nextSizesOf w') j
        = Some (safeResizePanel panel (0 - Qabs delta) prevSize event).
Proof.
  induction fuel as [| fuel IH]; intros index w w' H Hahead j;
    [discriminate |].
  cbn [shrinkLoop] in H.
  apply bind_Ok in H as (panel & Hpanel & H).
  apply bind_Ok in H as (prevSize & Hprev & H).
  apply orThrow_Ok in Hpanel. apply orThrow_Ok in Hprev.
  apply bind_Ok in H as ([w1 stop] & Hvisit & H).
  assert (Hcur : getIndex (nextSizesOf w) index = Some prevSize)
    by (rewrite Hahead by apply ahead_self; exact Hprev).
  destruct (shrinkPanelAt_effect _ _ _ _ _ _ Hvisit Hcur) as (_ & Hother & _).
  pose proof (shrinkPanelAt_entry _ _ _ _ _ _ Hvisit) as Hentry.
  assert (Hdone :
    getIndex (nextSizesOf w1) j = getIndex (nextSizesOf w) j \/
    exists panel prevSize,
      getIndex panelsArray j = Some panel /\
      getIndex prevSizes j = Some prevSize /\
      getIndex (nextSizesOf w1) j
      = Some (safeResizePanel panel (0 - Qabs delta) prevSize event)).
  { destruct (Z.eq_dec j index) as [-> | Hj]; [| left; apply Hother; exact Hj].
    destruct Hentry as [E | E]; [left; exact E | right; eauto]. }
  assert (Hnext : forall index',
    (forall i, ahead delta index' i -> ahead delta index i /\ i <> index) ->
    shrinkLoop PRECISION fuel event panelsArray prevSizes delta index' w1 = Ok w' ->
    getIndex (nextSizesOf w') j = getIndex (nextSizesOf w) j \/
    exists panel prevSize,
      getIndex panelsArray j = Some panel /\
      getIndex prevSizes j = Some prevSize /\
      getIndex (nextSizesOf w') j
      = Some (safeResizePanel panel (0 - Qabs delta) prevSize event)).
  { intros index' Hsub Hrec.
    assert (Hpre : forall i, ahead delta index' i ->
                     getIndex (nextSizesOf w1) i = getIndex prevSizes i).
    { intros i Hi. destruct (Hsub i Hi) as [Hi1 Hi2].
      rewrite Hother by exact Hi2. apply Hahead. exact Hi1. }
    destruct (IH index' w1 w' Hrec Hpre j) as [E | E]; [| right; exact E].
    rewrite E. exact Hdone. }
  cbn beta iota in H.
  destruct stop; [injection H as <-; exact Hdone |].
  unfold ahead in Hnext.
  destruct (Num.ltb delta 0).
  - destruct (index - 1 <? 0)%Z; [injection H as <-; exact Hdone |].
    apply (Hnext (index - 1)%Z); [intros i Hi; lia | exact H].
  - destruct (Z.of_nat (List.length panelsArray) <=? index + 1)%Z;
      [injection H as <-; exact Hdone |].
    apply (Hnext (index + 1)%Z); [intros i Hi; lia | exact H].
Qed.


Hypothesis PRECISION_range : (1 <= PRECISION <= 100)%nat.

(** With a precision that [toPrecision] accepts, a visit inside the array
    returns. *)
Lemma shrinkPanelAt_returns (panel : PanelData) (prevSize : Q) (index : Z)
    (w : Walk) :
  (0 <= index < Z.of_nat (List.length (nextSizesOf w)))%Z ->
  exists w1 stop,
    shrinkPanelAt PRECISION event panel prevSize delta index w = Ok (w1, stop) /\
    List.length (nextSizesOf w1) = List.length (nextSizesOf w).
Proof.
  intro Hrange. unfold shrinkPanelAt.
  destruct (negb (Num.eqb prevSize
                    (safeResizePanel panel (0 - Qabs delta) prevSize event)));
    [| eauto].
  rewrite setIndex_in_range by exact Hrange. cbn [bind].
  destruct (toPrecision_Ok
              (deltaAppliedOf w
               + (prevSize - safeResizePanel panel (0 - Qabs delta) prevSize event))
              PRECISION PRECISION_range) as [applied ->].
  destruct (toPrecision_Ok delta PRECISION PRECISION_range) as [wanted ->].
  cbn [bind]. eexists _, _. split; [reflexivity |].
  cbn [nextSizesOf]. apply setNth_length.
Qed.

(** The loop returns: entered inside the arrays, it needs one level of fuel
    for each index between its entry and the end of the side it walks. *)
Lemma shrinkLoop_returns (fuel : nat) :
  forall (index : Z) (w : Walk),
    List.length prevSizes = List.length panelsArray ->
    List.length (nextSizesOf w) = List.length prevSizes ->
    (0 <= index < Z.of_nat (List.length panelsArray))%Z ->
    (if Num.ltb delta 0 then index < Z.of_nat fuel
     else Z.of_nat (List.length panelsArray) - index <= Z.of_nat fuel)%Z ->
    exists w', shrinkLoop PRECISION fuel event panelsArray prevSizes delta index w
               = Ok w'.
Proof.
  induction fuel as [| fuel IH]; intros index w Hlen Hw Hrange Hfuel.
  - destruct (Num.ltb delta 0); lia.
  - cbn [shrinkLoop].
    destruct (getIndex_in_range panelsArray index Hrange) as [panel ->].
    destruct (getIndex_in_range prevSizes index) as [prevSize ->]; [lia |].
    cbn [orThrow bind].
    destruct (shrinkPanelAt_returns panel prevSize index w)
      as (w1 & stop & -> & Hw1); [lia |].
    cbn [bind]. destruct stop; [eauto |].
    destruct (Num.ltb delta 0).
    + destruct (index - 1 <? 0)%Z eqn:E; [eauto |]. apply Z.ltb_ge in E.
      apply IH; [assumption | congruence | lia | lia].
    + destruct (Z.of_nat (List.length panelsArray) <=? index + 1)%Z eqn:E;
        [eauto |].
      apply Z.leb_gt in E. apply IH; [assumption | congruence | lia | lia].
Qed.

End ShrinkLoop.

(** A growth request never returns less than the previous size of a panel
    that is not above its [maxSize]. *)
Lemma safeResizePanel_grows (panel : PanelData) (delta prevSize : Q)
    (event : option ResizeEvent) :
  0 < delta ->
  prevSize <= maxSize panel ->
  prevSize <= safeResizePanel panel delta prevSize event.
Proof.
  intros Hd Hmax. unfold safeResizePanel.
  assert (Hclamp : prevSize
                   <= Qmin (maxSize panel) (Qmax (minSize panel) (prevSize + delta))).
  { apply Q.min_glb; [exact Hmax |].
    apply Qle_trans with (prevSize + delta); [lra | apply Q.le_max_r]. }
  destruct (collapsible panel); [| exact Hclamp].
  destruct (Num.ltb 0 prevSize) eqn:E; num_props.
  - destruct (Num.leb (prevSize + delta) 0) eqn:E'; num_props; [lra | exact Hclamp].
  - destruct (negb (isKeyboardEvent event)); [| exact Hclamp].
    destruct (Num.ltb (prevSize + delta) (minSize panel)); [lra | exact Hclamp].
Qed.


(** Step 2 keeps the sign of [delta] when the pivot is not above its
    [maxSize]. *)
Lemma clampedDelta_sign (panel : PanelData) (delta pivotPrev : Q)
    (event : option ResizeEvent) :
  ~ delta == 0 ->
  pivotPrev <= maxSize panel ->
  ~ pivotPrev == safeResizePanel panel (Qabs delta) pivotPrev event ->
  Num.ltb (clampedDelta delta pivotPrev
             (safeResizePanel panel (Qabs delta) pivotPrev event)) 0
  = Num.ltb delta 0.
Proof.
  intros H0 Hmax Hne.
  assert (Habs : 0 < Qabs delta).
  { destruct (Qabs_case delta (fun a => 0 <= a /\ (a == 0 -> delta == 0)))
      as [Hnn Hz]; [intros; split; lra | intros; split; lra |].
    destruct (Qle_lt_or_eq _ _ Hnn) as [Hlt | Heq]; [exact Hlt |].
    exfalso. apply H0, Hz. symmetry. exact Heq. }
  pose proof (safeResizePanel_grows panel (Qabs delta) pivotPrev event Habs Hmax)
    as Hgrow.
  unfold clampedDelta. destruct (Num.ltb delta 0) eqn:E.
  - apply Num_ltb_lt. lra.
  - apply Num_ltb_ge. lra.
Qed.

(** ** adjustByDelta, step by step *)

Section AdjustByDelta.

Variable PRECISION : nat.
Variable event : option ResizeEvent.
Variable panels : JsMap PanelData.
Variables idBefore idAfter : string.
Variable prevSizes : list Q.

Local Abbreviation panelsArray := (panelsMapToSortedArray panels).
Local Abbreviation loopFor :=
  (runLoop PRECISION event panelsArray idBefore idAfter prevSizes).
Local Abbreviation memoFor := (pivotMemo idBefore idAfter).

(** Every run that returns a new array went through the three early
    returns and wrote the pivot's entry last. *)
Lemma adjustByDelta_changed (delta : Q) (memo memo' : JsMap Q)
    (nextSizes : list Q) :
  adjustByDelta PRECISION event panels idBefore idAfter delta prevSizes memo
    = Ok (NextSizes nextSizes, memo') ->
  exists panel pivotPrev w finalPrev,
    let pivotNext := safeResizePanel panel (Qabs delta) pivotPrev event in
    let delta' := clampedDelta delta pivotPrev pivotNext in
    let pivot' := pivotIndex panelsArray idBefore idAfter delta' in
    ~ delta == 0 /\
    getIndex panelsArray (pivotIndex panelsArray idBefore idAfter delta)
      = Some panel /\
    getIndex prevSizes (pivotIndex panelsArray idBefore idAfter delta)
      = Some pivotPrev /\
    ~ pivotPrev == pivotNext /\
    loopFor delta' (memoFor delta pivotPrev pivotNext memo) = Ok w /\
    ~ deltaAppliedOf w == 0 /\
    getIndex prevSizes pivot' = Some finalPrev /\
    (0 <= pivot' < Z.of_nat (List.length (nextSizesOf w)))%Z /\
    nextSizes
      = setNth (nextSizesOf w) (Z.to_nat pivot') (finalPrev + deltaAppliedOf w) /\
    memo' = collapseMapOf w.
Proof.
  unfold adjustByDelta, runLoop, pivotMemo. intro H.
  destruct (Num.eqb delta 0) eqn:E0; [discriminate |].
  apply bind_Ok in H as (panel & Hpanel & H).
  apply bind_Ok in H as (pivotPrev & Hprev & H).
  apply orThrow_Ok in Hpanel. apply orThrow_Ok in Hprev.
  destruct (Num.eqb pivotPrev (safeResizePanel panel (Qabs delta) pivotPrev event))
    eqn:E1; [discriminate |].
  apply bind_Ok in H as (w & Hloop & H).
  destruct (Num.eqb (deltaAppliedOf w) 0) eqn:E2; [discriminate |].
  apply bind_Ok in H as (finalPrev & Hfinal & H).
  apply bind_Ok in H as (next & Hset & H).
  apply orThrow_Ok in Hfinal. apply setIndex_Ok in Hset as [Hrange ->].
  injection H as <- <-.
  exists panel, pivotPrev, w, finalPrev. cbv zeta.
  num_props. repeat split; try assumption; try apply Hrange.
Qed.

(** [adjustByDelta] once the pivot of step 2 is looked up. *)
Lemma adjustByDelta_steps (delta : Q) (memo : JsMap Q) (panel : PanelData)
    (pivotPrev : Q) :
  getIndex panelsArray (pivotIndex panelsArray idBefore idAfter delta)
    = Some panel ->
  getIndex prevSizes (pivotIndex panelsArray idBefore idAfter delta)
    = Some pivotPrev ->
  adjustByDelta PRECISION event panels idBefore idAfter delta prevSizes memo
  = let pivotNext := safeResizePanel panel (Qabs delta) pivotPrev event in
    let delta' := clampedDelta delta pivotPrev pivotNext in
    let pivot' := pivotIndex panelsArray idBefore idAfter delta' in
    if Num.eqb delta 0 then Ok (PrevSizes, memo)
    else if Num.eqb pivotPrev pivotNext then Ok (PrevSizes, memo)
    else
      w <- loopFor delta' (memoFor delta pivotPrev pivotNext memo) ;;
      if Num.eqb (deltaAppliedOf w) 0 then Ok (PrevSizes, collapseMapOf w)
      else
        finalPrev <- orThrow Unmodelled (getIndex prevSizes pivot') ;;
        nextSizes <-
          setIndex (nextSizesOf w) pivot' (finalPrev + deltaAppliedOf w) ;;
        Ok (NextSizes nextSizes, collapseMapOf w).
Proof.
  unfold pivotIndex. intros Hpanel Hprev. cbv zeta.
  unfold adjustByDelta. destruct (Num.eqb delta 0); [reflexivity |].
  rewrite Hpanel, Hprev. reflexivity.
Qed.

(** For a divider between two panels of the group and a sizes array as long
    as the group, the loop returns and keeps the length of the array. *)
Lemma runLoop_returns (delta' : Q) (memo : JsMap Q) :
  (1 <= PRECISION <= 100)%nat ->
  List.length prevSizes = List.length panelsArray ->
  (0 <= findPanelIndex panelsArray idBefore)%Z ->
  (0 <= findPanelIndex panelsArray idAfter)%Z ->
  exists w, loopFor delta' memo = Ok w /\
            List.length (nextSizesOf w) = List.length prevSizes.
Proof.
  intros HP Hlen HB HA. unfold runLoop.
  apply findPanelIndex_found in HB, HA.
  destruct (shrinkLoop_returns PRECISION event panelsArray prevSizes delta' HP
              (loopFuel panelsArray)
              (startIndex panelsArray idBefore idAfter delta')
              (entryWalk prevSizes memo)) as [w Hw];
    try assumption; try reflexivity.
  - unfold startIndex. destruct (Num.ltb delta' 0); assumption.
  - unfold startIndex, loopFuel. destruct (Num.ltb delta' 0); lia.
  - exists w. split; [exact Hw |].
    destruct (shrinkLoop_effect _ _ _ _ _ _ _ _ _ Hw) as (Hl & _);
      [reflexivity | exact Hl].
Qed.

(** In a valid state step 2 keeps the sign of [delta], so the final write
    goes to the pivot of step 2. *)
Lemma adjustByDelta_changed_valid (delta : Q) (memo memo' : JsMap Q)
    (nextSizes : list Q) :
  validState panelsArray prevSizes ->
  adjustByDelta PRECISION event panels idBefore idAfter delta prevSizes memo
    = Ok (NextSizes nextSizes, memo') ->
  exists panel pivotPrev w,
    let pivotNext := safeResizePanel panel (Qabs delta) pivotPrev event in
    let delta' := clampedDelta delta pivotPrev pivotNext in
    let pivot := pivotIndex panelsArray idBefore idAfter delta in
    getIndex panelsArray pivot = Some panel /\
    getIndex prevSizes pivot = Some pivotPrev /\
    Num.ltb delta' 0 = Num.ltb delta 0 /\
    loopFor delta' (memoFor delta pivotPrev pivotNext memo) = Ok w /\
    ~ deltaAppliedOf w == 0 /\
    (0 <= pivot < Z.of_nat (List.length (nextSizesOf w)))%Z /\
    nextSizes
      = setNth (nextSizesOf w) (Z.to_nat pivot) (pivotPrev + deltaAppliedOf w).
Proof.
  intros Hvalid H.
  destruct (adjustByDelta_changed _ _ _ _ H)
    as (panel & pivotPrev & w & finalPrev & Hrun).
  cbv zeta in Hrun.
  destruct Hrun as (H0 & Hpanel & Hprev & Hne & Hloop & Happlied & Hfinal
                    & Hrange & Hnext & _).
  assert (Hmax : pivotPrev <= maxSize panel).
  { destruct (Hvalid _ _ _ Hpanel Hprev) as [Hb [[_ Hz] | Hin]]; lra. }
  pose proof (clampedDelta_sign panel delta pivotPrev event H0 Hmax Hne) as Hsign.
  assert (Hpivot : pivotIndex panelsArray idBefore idAfter
                     (clampedDelta delta pivotPrev
                        (safeResizePanel panel (Qabs delta) pivotPrev event))
                   = pivotIndex panelsArray idBefore idAfter delta)
    by (unfold pivotIndex; rewrite Hsign; reflexivity).
  rewrite Hpivot in Hfinal, Hrange, Hnext.
  rewrite Hprev in Hfinal. injection Hfinal as <-.
  exists panel, pivotPrev, w. cbv zeta. repeat split; try assumption; apply Hrange.
Qed.

(** X22. The part of the bounds that holds by construction: from a valid
    state, every entry of a returned new array other than the pivot's is a
    valid size of its panel. *)
Theorem adjustByDelta_other_entries_valid (delta : Q) (memo memo' : JsMap Q)
    (nextSizes : list Q) :
  validState panelsArray prevSizes ->
  adjustByDelta PRECISION event panels idBefore idAfter delta prevSizes memo
    = Ok (NextSizes nextSizes, memo') ->
  forall (j : Z) (panel : PanelData) (size : Q),
    j <> pivotIndex panelsArray idBefore idAfter delta ->
    getIndex panelsArray j = Some panel ->
    getIndex nextSizes j = Some size ->
    validSize panel size.
Proof.
  intros Hvalid H j panel size Hj Hpanel Hsize.
  destruct (adjustByDelta_changed_valid _ _ _ _ Hvalid H)
    as (pivotPanel & pivotPrev & w & Hrun).
  cbv zeta in Hrun.
  destruct Hrun as (_ & _ & _ & Hloop & _ & Hrange & ->).
  rewrite getIndex_setNth_other in Hsize by (try lia; congruence).
  unfold runLoop in Hloop.
  destruct (shrinkLoop_entries _ _ _ _ _ _ _ _ _ Hloop) with (j := j)
    as [E | (panel' & prevSize & Hpanel' & Hprev' & E)]; [reflexivity | |].
  - cbn [entryWalk nextSizesOf] in E. rewrite E in Hsize.
    apply (Hvalid _ _ _ Hpanel Hsize).
  - rewrite Hpanel in Hpanel'. injection Hpanel' as <-.
    rewrite E in Hsize. injection Hsize as <-.
    destruct (Hvalid _ _ _ Hpanel Hprev') as [[_ Hb] _].
    destruct (safeResizePanel_bounds panel
                (0 - Qabs (clampedDelta delta pivotPrev
                             (safeResizePanel pivotPanel (Qabs delta) pivotPrev
                                event)))
                prevSize event Hb) as [[Hc Hz] | Hin].
    + left. split; [exact Hc | rewrite Hz; reflexivity].
    + right. exact Hin.
Qed.


End AdjustByDelta.

(** ** callPanelCallbacks *)

Lemma differs_changed (prevSize : option Q) (nextSize : Q) :
  differs prevSize nextSize = true <-> changed prevSize nextSize.
Proof.
  destruct prevSize as [s |]; simpl; [| tauto].
  rewrite negb_true_iff. apply Num_eqb_neq.
Qed.

Lemma falsy_spec (prevSize : option Q) :
  falsy prevSize = true <->
  prevSize = None \/ exists s, prevSize = Some s /\ s == 0.
Proof.
  destruct prevSize as [s |]; simpl.
  - rewrite Num_eqb_eq. split.
    + intro H. right. exists s. split; [reflexivity | exact H].
    + intros [H | (s' & H & H0)]; [discriminate | congruence].
  - split; auto.
Qed.

Lemma notZero_spec (prevSize : option Q) :
  notZero prevSize = true <->
  prevSize = None \/ exists s, prevSize = Some s /\ ~ s == 0.
Proof.
  destruct prevSize as [s |]; simpl.
  - rewrite negb_true_iff, Num_eqb_neq. split.
    + intro H. right. exists s. split; [reflexivity | exact H].
    + intros [H | (s' & H & H0)]; [discriminate | congruence].
  - split; auto.
Qed.

(** The calls for one changed panel: the resize call if the hook is set,
    then at most one collapse call, chosen by the transition. *)
Lemma notifyPanel_calls (panel : PanelData) (prevSize : option Q) (nextSize : Q) :
  exists collapseCalls,
    notifyPanel panel prevSize nextSize
    = (if onResize (callbacksRef panel)
       then [OnResize (id panel) nextSize] else []) ++ collapseCalls /\
    ((collapseHooked panel /\ expandTransition prevSize nextSize /\
      collapseCalls = [OnCollapse (id panel) false]) \/
     (collapseHooked panel /\ collapseTransition prevSize nextSize /\
      collapseCalls = [OnCollapse (id panel) true]) \/
     (~ (collapseHooked panel /\
         (expandTransition prevSize nextSize \/
          collapseTransition prevSize nextSize)) /\
      collapseCalls = [])).
Proof.
  unfold notifyPanel, collapseHooked, expandTransition, collapseTransition.
  eexists. split; [reflexivity |].
  destruct (collapsible panel); cbn [andb];
    [| right; right; split; [intros [[H _] _]; discriminate | reflexivity]].
  destruct (onCollapse (callbacksRef panel));
    [| right; right; split; [intros [[_ H] _]; discriminate | reflexivity]].
  destruct (falsy prevSize) eqn:Ef; destruct (Num.eqb nextSize 0) eqn:En;
    cbn [andb negb]; num_props.
  - destruct (notZero prevSize) eqn:Ez; cbn [andb].
    + right; left. apply notZero_spec in Ez. auto.
    + right; right. split; [| reflexivity].
      intros [_ [[_ H] | [H _]]]; [contradiction |].
      apply notZero_spec in H. congruence.
  - left. apply falsy_spec in Ef. auto.
  - destruct (notZero prevSize) eqn:Ez; cbn [andb].
    + right; left. apply notZero_spec in Ez. auto.
    + right; right. split; [| reflexivity].
      intros [_ [[_ H] | [H _]]]; [contradiction |].
      apply notZero_spec in H. congruence.
  - right; right. rewrite andb_false_r. split; [| reflexivity].
    intros [_ [[H _] | [_ H]]]; [| contradiction].
    apply falsy_spec in H. congruence.
Qed.

(** [forEach] runs the callback at each index of [nextSizes], in order. *)
Lemma forEachFrom_calls (panelsArray : list PanelData) (prevSizes : list Q) :
  forall (nextSizes : list Q) (index : Z),
    (0 <= index)%Z ->
    (index + Z.of_nat (List.length nextSizes)
     <= Z.of_nat (List.length panelsArray))%Z ->
    exists perPanel,
      forEachFrom panelsArray prevSizes index nextSizes = Ok (List.concat perPanel) /\
      List.length perPanel = List.length nextSizes /\
      forall (j : nat) (nextSize : Q),
        nth_error nextSizes j = Some nextSize ->
        exists panel,
          getIndex panelsArray (index + Z.of_nat j) = Some panel /\
          nth_error perPanel j
          = Some (if differs (getIndex prevSizes (index + Z.of_nat j)) nextSize
                  then notifyPanel panel
                         (getIndex prevSizes (index + Z.of_nat j)) nextSize
                  else []).
Proof.
  induction nextSizes as [| nextSize rest IH]; intros index Hi Hlen.
  - exists []. split; [reflexivity |]. split; [reflexivity |].
    intros [| j] x H; discriminate.
  - cbn [List.length] in Hlen. cbn [forEachFrom]. unfold notifyAt.
    destruct (getIndex_in_range panelsArray index) as [panel Hpanel]; [lia |].
    destruct (IH (index + 1)%Z) as (perPanel & Hrest & Hlen' & Hnth); [lia | lia |].
    rewrite Hrest.
    exists ((if differs (getIndex prevSizes index) nextSize
             then notifyPanel panel (getIndex prevSizes index) nextSize
             else []) :: perPanel).
    split; [| split].
    + destruct (differs (getIndex prevSizes index) nextSize);
        [rewrite Hpanel |]; reflexivity.
    + cbn [List.length]. congruence.
    + intros [| j] x H; cbn [nth_error] in *.
      * injection H as <-. exists panel.
        replace (index + Z.of_nat 0)%Z with index by lia. auto.
      * destruct (Hnth j x H) as (panel' & Hp' & Hc').
        exists panel'.
        replace (index + Z.of_nat (S j))%Z with (index + 1 + Z.of_nat j)%Z by lia.
        auto.
Qed.

(** C7, as amended.  When every index of [nextSizes] has a panel,
    [callPanelCallbacks] makes, index after index, these calls and no others:
    nothing for an index whose size did not change; for a changed index the
    resize hook, if set, with the new size, and then, for a collapsible panel
    with a collapse hook, [onCollapse(false)] exactly when the previous size
    is zero or absent and the next size is nonzero, and [onCollapse(true)]
    exactly when the previous size is not the number 0 (a nonzero size, or
    absent) and the next size is exactly 0.  For the previous sizes 30, 20 and
    the next sizes 30, 0 with the second panel collapsible that is one
    [onResize(0)] and one [onCollapse(true)] for the second panel, and nothing
    for the first. *)
Theorem callPanelCallbacks_contract :
  (forall (panelsArray : list PanelData) (prevSizes nextSizes : list Q),
     (List.length nextSizes <= List.length panelsArray)%nat ->
     exists perPanel,
       callPanelCallbacks panelsArray prevSizes nextSizes
         = Ok (List.concat perPanel) /\
       List.length perPanel = List.length nextSizes /\
       forall (index : Z) (panel : PanelData) (nextSize : Q) (calls : list Call),
         getIndex panelsArray index = Some panel ->
         getIndex nextSizes index = Some nextSize ->
         getIndex perPanel index = Some calls ->
         (~ changed (getIndex prevSizes index) nextSize -> calls = []) /\
         (changed (getIndex prevSizes index) nextSize ->
          exists collapseCalls,
            calls = (if onResize (callbacksRef panel)
                     then [OnResize (id panel) nextSize] else [])
                    ++ collapseCalls /\
            ((collapseHooked panel /\
              expandTransition (getIndex prevSizes index) nextSize /\
              collapseCalls = [OnCollapse (id panel) false]) \/
             (collapseHooked panel /\
              collapseTransition (getIndex prevSizes index) nextSize /\
              collapseCalls = [OnCollapse (id panel) true]) \/
             (~ (collapseHooked panel /\
                 (expandTransition (getIndex prevSizes index) nextSize \/
                  collapseTransition (getIndex prevSizes index) nextSize)) /\
              collapseCalls = [])))) /\
  callPanelCallbacks panelsP1P2 [30; 20] [30; 0]
  = Ok [OnResize "p2" 0; OnCollapse "p2" true].
Proof.
  split; [| vm_compute; reflexivity].
  intros panelsArray prevSizes nextSizes Hlen.
  destruct (forEachFrom_calls panelsArray prevSizes nextSizes 0)
    as (perPanel & Hcalls & Hper & Hnth); [lia | lia |].
  exists perPanel. split; [exact Hcalls |]. split; [exact Hper |].
  intros index panel nextSize calls Hpanel Hnext Hat.
  pose proof (getIndex_Some_range _ _ _ Hnext) as Hrange.
  rewrite getIndex_nth_error in Hnext by lia.
  rewrite getIndex_nth_error in Hat by lia.
  destruct (Hnth _ _ Hnext) as (panel' & Hpanel' & Hcalls').
  replace (0 + Z.of_nat (Z.to_nat index))%Z with index in * by lia.
  rewrite Hpanel in Hpanel'. injection Hpanel' as <-.
  rewrite Hat in Hcalls'. injection Hcalls' as ->.
  destruct (differs (getIndex prevSizes index) nextSize) eqn:E.
  - apply differs_changed in E. split; [contradiction |].
    intros _. apply notifyPanel_calls.
  - split; [reflexivity |]. intro H. apply differs_changed in H. congruence.
Qed.

Lemma callPanelCallbacks_contract_witness :
  exists perPanel,
    callPanelCallbacks panelsP1P2 [30; 20] [30; 0] = Ok (List.concat perPanel) /\
    List.length perPanel = 2%nat.
Proof.
  destruct (proj1 callPanelCallbacks_contract panelsP1P2 [30; 20] [30; 0])
    as (perPanel & Hcalls & Hlen & _).
  - simpl. lia.
  - exists perPanel. split; [exact Hcalls | exact Hlen].
Defined.

(** C7 as first stated fails for a panel mounted collapsed: its previous
    size is absent, which is not a nonzero size, its next size is 0, and
    [onCollapse(true)] is called. *)
Lemma callPanelCallbacks_collapse_on_mount :
  callPanelCallbacks panelsP [] [0] = Ok [OnResize "p" 0; OnCollapse "p" true] /\
  getIndex (@nil Q) 0 = None /\
  ~ nonzeroSizeToZero (getIndex (@nil Q) 0) 0.
Proof.
  split; [vm_compute; reflexivity |]. split; [reflexivity |].
  intros [(s & H & _) _]. discriminate.
Qed.

(** ** The properties at concrete groups *)

Lemma safeResizePanel_collapse_hysteresis_witness :
  safeResizePanel (mkPanel "b" 1 10 100 true) 5 0 pointerEvent = 0 /\
  10 <= safeResizePanel (mkPanel "b" 1 10 100 true) 5 0 keyboardEvent <= 100.
Proof.
  split.
  - apply (safeResizePanel_collapse_hysteresis
             (mkPanel "b" 1 10 100 true) 5 0 pointerEvent);
      vm_compute; try reflexivity; discriminate.
  - apply (safeResizePanel_collapse_hysteresis
             (mkPanel "b" 1 10 100 true) 5 0 keyboardEvent);
      vm_compute; try reflexivity; discriminate.
Defined.

(** C2. The previous sizes 50, 12, 38 lie within the bounds 10..55, 10..100,
    10..100 of their panels; a pointer drag by 5 at the divider after the
    first panel returns 57, 10, 33: the pivot ends above its [maxSize] 55. *)
Theorem adjustByDelta_pivot_above_maxSize :
  adjustByDelta 10 pointerEvent (groupABC 55) "a" "b" 5 [50; 12; 38] []
    = Ok (NextSizes [57; 10; 33], []) /\
  getIndex (panelsMapToSortedArray (groupABC 55)) 0
    = Some (mkPanel "a" 0 10 55 false) /\
  maxSize (mkPanel "a" 0 10 55 false) < 57.
Proof.
  split; [vm_compute; reflexivity |]. split; vm_compute; reflexivity.
Qed.

(** C3. The loop compares the two [toPrecision] strings, not the numbers.
    For delta -5 it stops after the second panel gave 2, with the first panel
    untouched at 30 above its [minSize] 10; for delta 15 it stops after 5,
    since "5.000000000" is not below "15.00000000"; for delta 9 it goes on
    after 10 are taken, since "10.00000000" is below "9.000000000", and
    takes 19. *)
Theorem adjustByDelta_loop_compares_strings :
  adjustByDelta 10 pointerEvent (groupABC 100) "b" "c" (-5) [30; 12; 58] []
    = Ok (NextSizes [30; 10; 60], []) /\
  adjustByDelta 10 pointerEvent (groupABC 100) "a" "b" 15 [20; 15; 65] []
    = Ok (NextSizes [25; 10; 65], []) /\
  adjustByDelta 10 pointerEvent groupABCD "a" "b" 9 [10; 11; 30; 49] []
    = Ok (NextSizes [29; 10; 21; 40], []) /\
  Num.toPrecision 2 10 = Ok "2.000000000"%string /\
  Num.toPrecision (-5) 10 = Ok "-5.000000000"%string /\
  Num.strGe "2.000000000" "-5.000000000" = true /\
  Num.strGe "5.000000000" "15.00000000" = true /\
  Num.strGe "10.00000000" "9.000000000" = false.
Proof.
  repeat split; vm_compute; reflexivity.
Qed.

(** C4. Every panel of the walk is asked for the whole magnitude: for delta 5
    the second panel gives 2 and the third is then resized by -5, to 33, not by
    the remaining -3, to 35; 7 leave the shrinking side for a delta of 5. *)
Theorem adjustByDelta_asks_whole_delta :
  adjustByDelta 10 pointerEvent (groupABC 100) "a" "b" 5 [50; 12; 38] []
    = Ok (NextSizes [57; 10; 33], []) /\
  safeResizePanel (mkPanel "c" 2 10 100 false) (0 - 5) 38 pointerEvent == 33 /\
  safeResizePanel (mkPanel "c" 2 10 100 false) (0 - (5 - 2)) 38 pointerEvent == 35 /\
  5 < sum (shrinkSide 5 0 1 [50; 12; 38]) - sum (shrinkSide 5 0 1 [57; 10; 33]).
Proof.
  repeat split; vm_compute; reflexivity.
Qed.

(** C9. A keyboard resize by 5 at the divider after the first panel, with the
    collapsed second panel (size 0, [minSize] 10) on the shrinking side:
    from 50, 0, 50 to 45, 10, 45.  The second panel, which is not the pivot,
    grows, and the pivot shrinks. *)
Theorem adjustByDelta_keyboard_grows_shrink_side :
  adjustByDelta 10 keyboardEvent groupMiddleCollapsible "a" "b" 5 [50; 0; 50] []
    = Ok (NextSizes [45; 10; 45], []) /\
  pivotIndex (panelsMapToSortedArray groupMiddleCollapsible) "a" "b" 5 = 0%Z /\
  safeResizePanel (mkPanel "b" 1 10 100 true) (0 - 5) 0 keyboardEvent == 10.
Proof.
  repeat split; vm_compute; reflexivity.
Qed.

(** C5. The shrinking side can supply 4, less than the 5 asked for: the
    first panel can give 2, from 30 down to its [minSize] 28, and the second
    2, from 12 down to 10.  A pointer drag by -5 at the divider before the
    third panel returns 30, 10, 60: the loop stops after the second panel, on
    the comparison of "2.000000000" with "-5.000000000", and the pivot grows
    by 2, not by the 4 the shrinking side can supply. *)
Theorem adjustByDelta_partial_fulfillment_stops_early :
  adjustByDelta 10 pointerEvent groupNarrowA "b" "c" (-5) [30; 12; 58] []
    = Ok (NextSizes [30; 10; 60], []) /\
  panelsMapToSortedArray groupNarrowA
    = [mkPanel "a" 0 28 100 false; mkPanel "b" 1 10 100 false;
       mkPanel "c" 2 10 100 false]%string /\
  safeResizePanel (mkPanel "c" 2 10 100 false) (Qabs (-5)) 58 pointerEvent
    == 58 + 5 /\
  safeResizePanel (mkPanel "b" 1 10 100 false) (0 - 5) 12 pointerEvent
    == 12 - 2 /\
  safeResizePanel (mkPanel "a" 0 28 100 false) (0 - 5) 30 pointerEvent
    == 30 - 2 /\
  sum (shrinkSide (-5) 1 2 [30; 12; 58]) - sum (shrinkSide (-5) 1 2 [28; 10; 58])
    == 4 /\
  sum (shrinkSide (-5) 1 2 [30; 12; 58]) - sum (shrinkSide (-5) 1 2 [30; 10; 60])
    == 2 /\
  getIndex [30; 10; 60] (pivotIndex (panelsMapToSortedArray groupNarrowA)
                           "b" "c" (-5)) = Some (58 + 2) /\
  Num.strGe "2.000000000" "-5.000000000" = true.
Proof.
  repeat split; vm_compute; reflexivity.
Qed.

(** C8. A keyboard resize by 10 at the divider after the first panel, from
    40, 0, 60 with the collapsed second panel on the shrinking side.  [delta]
    is not 0 and the pivot's constrained resize takes it from 40 to 50; the
    loop grows the second panel from 0 to 10 and shrinks the third from 60 to
    50, so two panels of the shrinking side changed, and [deltaApplied] is
    -10 + 10 = 0: [adjustByDelta] returns [prevSizes] itself.  The same
    request from a pointer returns the new array 50, 0, 50. *)
Theorem adjustByDelta_cancelled_walk_returns_prevSizes :
  adjustByDelta 10 keyboardEvent groupMiddleCollapsible "a" "b" 10 [40; 0; 60] []
    = Ok (PrevSizes, []) /\
  Num.eqb 10 0 = false /\
  safeResizePanel (mkPanel "a" 0 10 100 false) (Qabs 10) 40 keyboardEvent
    == 50 /\
  (exists w,
     runLoop 10 keyboardEvent (panelsMapToSortedArray groupMiddleCollapsible)
       "a" "b" [40; 0; 60] (clampedDelta 10 40 50) [] = Ok w /\
     nextSizesOf w = [40; 10; 50] /\
     deltaAppliedOf w == 0) /\
  safeResizePanel (mkPanel "b" 1 10 100 true) (0 - 10) 0 keyboardEvent == 10 /\
  safeResizePanel (mkPanel "c" 2 10 100 false) (0 - 10) 60 keyboardEvent == 50 /\
  adjustByDelta 10 pointerEvent groupMiddleCollapsible "a" "b" 10 [40; 0; 60] []
    = Ok (NextSizes [50; 0; 50], []).
Proof.
  repeat split; try (vm_compute; reflexivity).
  eexists. split; [vm_compute; reflexivity |].
  split; vm_compute; reflexivity.
Qed.

(** ** The same runs at every precision [toPrecision] accepts *)

(** The three runs of the string comparison do not depend on [PRECISION]. *)
Lemma loop_compares_strings_at_every_precision :
  Forall (fun PRECISION =>
    adjustByDelta PRECISION pointerEvent (groupABC 100) "b" "c" (-5)
      [30; 12; 58] [] = Ok (NextSizes [30; 10; 60], []) /\
    adjustByDelta PRECISION pointerEvent (groupABC 100) "a" "b" 15
      [20; 15; 65] [] = Ok (NextSizes [25; 10; 65], []) /\
    adjustByDelta PRECISION pointerEvent groupABCD "a" "b" 9
      [10; 11; 30; 49] [] = Ok (NextSizes [29; 10; 21; 40], []))
    (seq 1 100).
Proof.
  repeat (constructor; [repeat split; vm_compute; reflexivity |]).
  constructor.
Qed.

(** Nor do the run that takes 7 for a delta of 5 and the keyboard run. *)
Lemma whole_delta_and_keyboard_at_every_precision :
  Forall (fun PRECISION =>
    adjustByDelta PRECISION pointerEvent (groupABC 55) "a" "b" 5
      [50; 12; 38] [] = Ok (NextSizes [57; 10; 33], []) /\
    adjustByDelta PRECISION keyboardEvent groupMiddleCollapsible "a" "b" 5
      [50; 0; 50] [] = Ok (NextSizes [45; 10; 45], []))
    (seq 1 100).
Proof.
  repeat (constructor; [repeat split; vm_compute; reflexivity |]).
  constructor.
Qed.

(** Nor do the run that stops with 4 to supply and the keyboard run whose
    changes cancel. *)
Lemma stops_early_and_cancelled_walk_at_every_precision :
  Forall (fun PRECISION =>
    adjustByDelta PRECISION pointerEvent groupNarrowA "b" "c" (-5)
      [30; 12; 58] [] = Ok (NextSizes [30; 10; 60], []) /\
    adjustByDelta PRECISION keyboardEvent groupMiddleCollapsible "a" "b" 10
      [40; 0; 60] [] = Ok (PrevSizes, []))
    (seq 1 100).
Proof.
  repeat (constructor; [repeat split; vm_compute; reflexivity |]).
  constructor.
Qed.

(** * Further properties of the file *)

(** ** panelsMapToSortedArray *)

Lemma insertSorted_Permutation (p : PanelData) (a : list PanelData) :
  Permutation (p :: a) (insertSorted p a).
Proof.
  induction a as [| q a IH]; simpl; [apply Permutation_refl |].
  destruct (Num.leb (order p - order q) 0); [apply Permutation_refl |].
  apply perm_trans with (q :: p :: a); [apply perm_swap |].
  apply perm_skip. exact IH.
Qed.

Lemma sortByOrder_Permutation (a : list PanelData) :
  Permutation a (sortByOrder a).
Proof.
  induction a as [| p a IH]; simpl; [apply perm_nil |].
  apply perm_trans with (p :: sortByOrder a);
    [apply perm_skip; exact IH | apply insertSorted_Permutation].
Qed.

Lemma insertSorted_sorted (p : PanelData) (a : list PanelData) :
  StronglySorted orderLe a -> StronglySorted orderLe (insertSorted p a).
Proof.
  induction a as [| q a IH]; intro Hs; simpl.
  - constructor; constructor.
  - apply StronglySorted_inv in Hs as [Hs Hq].
    destruct (Num.leb (order p - order q) 0) eqn:E; num_props.
    + constructor; [constructor; assumption |].
      constructor; [unfold orderLe; lra |].
      apply Forall_impl with (P := orderLe q); [| exact Hq].
      unfold orderLe. intros r Hr. lra.
    + constructor; [apply IH; exact Hs |].
      apply Forall_forall. intros r Hr. apply insertSorted_In in Hr as [-> | Hr].
      * unfold orderLe. lra.
      * apply (proj1 (Forall_forall _ _) Hq r Hr).
Qed.

Lemma panelsMapToSortedArray_permutation_aux (panels : JsMap PanelData) :
  Permutation (mapValues panels) (panelsMapToSortedArray panels).
Proof. apply sortByOrder_Permutation. Qed.

(** X1. The array of [panelsMapToSortedArray] holds the values of the map,
    each as often as the map does, so it is as long as the map is large:
    sorting loses and invents no panel. *)
Theorem panelsMapToSortedArray_permutation (panels : JsMap PanelData) :
  Permutation (mapValues panels) (panelsMapToSortedArray panels) /\
  List.length (panelsMapToSortedArray panels) = mapSize panels.
Proof.
  split; [apply sortByOrder_Permutation |].
  apply panelsMapToSortedArray_length.
Qed.

(** X2. The array of [panelsMapToSortedArray] is in ascending [order]: every
    panel's [order] is at most that of every panel behind it. *)
Theorem panelsMapToSortedArray_sorted (panels : JsMap PanelData) :
  StronglySorted orderLe (panelsMapToSortedArray panels).
Proof.
  unfold panelsMapToSortedArray, sortByOrder.
  induction (mapValues panels) as [| p a IH]; simpl; [constructor |].
  apply insertSorted_sorted. exact IH.
Qed.

(** ** findIndex *)

Lemma findIndexFrom_first {A : Type} (f : A -> bool) (a : list A) (i : Z) :
  (findIndexFrom f a i = (-1)%Z /\ forall x, In x a -> f x = false) \/
  (exists n q,
     findIndexFrom f a i = (i + Z.of_nat n)%Z /\
     nth_error a n = Some q /\ f q = true /\
     forall m y, (m < n)%nat -> nth_error a m = Some y -> f y = false).
Proof.
  revert i. induction a as [| x a IH]; intro i; simpl.
  - left. split; [reflexivity | intros x []].
  - destruct (f x) eqn:E.
    + right. exists 0%nat, x. repeat split; try assumption; [lia |].
      intros m y Hm. lia.
    + destruct (IH (i + 1)%Z) as [[H1 H2] | (n & q & H1 & H2 & H3 & H4)].
      * left. split; [exact H1 |]. intros y [<- | Hy]; auto.
      * right. exists (S n), q. repeat split; try assumption; [lia |].
        intros [| m] y Hm Hy; simpl in Hy.
        -- injection Hy as <-. exact E.
        -- apply (H4 m y); [lia | exact Hy].
Qed.

Lemma uniqueIds_same_panel (a : list PanelData) (p q : PanelData) :
  uniqueIds a -> In p a -> In q a -> id p = id q -> p = q.
Proof.
  unfold uniqueIds. induction a as [| x a IH]; intros Hu Hp Hq E; [destruct Hp |].
  simpl in Hu. apply NoDup_cons_iff in Hu as [Hx Hu].
  destruct Hp as [<- | Hp], Hq as [<- | Hq]; auto.
  - exfalso. apply Hx. rewrite E. apply in_map. exact Hq.
  - exfalso. apply Hx. rewrite <- E. apply in_map. exact Hp.
Qed.

(** With unique ids, the index [findIndex] returns for the id of the panel
    at position [n] is [n]. *)
Lemma findPanelIndex_unique (a : list PanelData) (n : nat) (p : PanelData) :
  uniqueIds a -> nth_error a n = Some p ->
  findPanelIndex a (id p) = Z.of_nat n.
Proof.
  intros Hu Hn. unfold findPanelIndex, findIndex.
  destruct (findIndexFrom_first (fun panel => String.eqb (id panel) (id p)) a 0)
    as [[_ Habs] | (m & q & Hm & Hq & Hf & Hfirst)].
  - pose proof (Habs p (nth_error_In _ _ Hn)) as E. simpl in E.
    rewrite String.eqb_refl in E. discriminate.
  - rewrite Hm. apply String.eqb_eq in Hf.
    assert (q = p)
      by (eapply uniqueIds_same_panel; eauto using nth_error_In).
    subst q.
    destruct (Nat.lt_trichotomy m n) as [Hlt | [-> | Hgt]]; [| lia |].
    + exfalso. unfold uniqueIds in Hu.
      assert (E : m = n); [| lia].
      apply (proj1 (NoDup_nth_error _) Hu m n).
      * apply nth_error_Some. rewrite nth_error_map, Hq. discriminate.
      * rewrite !nth_error_map, Hq, Hn. reflexivity.
    + pose proof (Hfirst n p Hgt Hn) as E. simpl in E.
      rewrite String.eqb_refl in E. discriminate.
Qed.

(** X3. When the panels of the map carry distinct ids, the id of each of
    them is found in the sorted array, at an index that holds that panel. *)
Theorem panelsMapToSortedArray_finds_every_panel (panels : JsMap PanelData)
    (panel : PanelData) :
  uniqueIds (mapValues panels) ->
  In panel (mapValues panels) ->
  getIndex (panelsMapToSortedArray panels)
    (findPanelIndex (panelsMapToSortedArray panels) (id panel)) = Some panel.
Proof.
  intros Hu Hin.
  assert (Hu' : uniqueIds (panelsMapToSortedArray panels)).
  { unfold uniqueIds in *.
    apply (Permutation_NoDup
             (Permutation_map id (panelsMapToSortedArray_permutation_aux panels))).
    exact Hu. }
  apply (Permutation_in _ (panelsMapToSortedArray_permutation_aux panels)) in Hin.
  apply In_nth_error in Hin as [n Hn].
  rewrite (findPanelIndex_unique _ n panel Hu' Hn).
  rewrite getIndex_nth_error by lia. rewrite Nat2Z.id. exact Hn.
Qed.

(** ** getBeforeAndAfterIds *)

Lemma findPanelIndex_first (a : list PanelData) (id' : string) :
  (findPanelIndex a id' = (-1)%Z /\ forall p, In p a -> id p <> id') \/
  (exists n q,
     findPanelIndex a id' = Z.of_nat n /\ nth_error a n = Some q /\ id q = id').
Proof.
  unfold findPanelIndex, findIndex.
  destruct (findIndexFrom_first (fun panel => String.eqb (id panel) id') a 0)
    as [[H1 H2] | (n & q & H1 & H2 & H3 & _)].
  - left. split; [exact H1 |]. intros p Hp. apply String.eqb_neq. apply H2, Hp.
  - right. exists n, q. apply String.eqb_eq in H3. auto.
Qed.

(** The three ways [getBeforeAndAfterIds] ends. *)
Lemma getBeforeAndAfterIds_cases (id' : string) (a : list PanelData) :
  (((List.length a < 2)%nat \/ forall p, In p a -> id p <> id') /\
   getBeforeAndAfterIds id' a = Ok (None, None)) \/
  (exists n q,
     (2 <= List.length a)%nat /\
     findPanelIndex a id' = Z.of_nat n /\ nth_error a n = Some q /\ id q = id' /\
     ((S n = List.length a /\
       exists m p, n = S m /\ nth_error a m = Some p /\
                   getBeforeAndAfterIds id' a = Ok (Some (id p), Some id')) \/
      (S n < List.length a /\
       exists p, nth_error a (S n) = Some p /\
                 getBeforeAndAfterIds id' a = Ok (Some id', Some (id p)))))%nat.
Proof.
  unfold getBeforeAndAfterIds.
  destruct (List.length a <? 2)%nat eqn:E2.
  { left. apply Nat.ltb_lt in E2. auto. }
  apply Nat.ltb_ge in E2.
  destruct (findPanelIndex_first a id') as [[H1 H2] | (n & q & H1 & H2 & H3)].
  { left. rewrite H1. auto. }
  right. exists n, q. rewrite H1.
  assert (Hn : (n < List.length a)%nat) by (apply nth_error_Some; congruence).
  assert (E : (Z.of_nat n <? 0)%Z = false) by (apply Z.ltb_ge; lia).
  rewrite E. repeat split; try assumption.
  destruct (Z.of_nat n =? Z.of_nat (List.length a) - 1)%Z eqn:El.
  - apply Z.eqb_eq in El. left. split; [lia |].
    destruct n as [| m]; [lia |]. exists m.
    destruct (nth_error a m) as [p |] eqn:Hp;
      [| apply nth_error_None in Hp; lia].
    exists p. repeat split.
    rewrite getIndex_nth_error by lia.
    replace (Z.to_nat (Z.of_nat (S m) - 1)) with m by lia.
    rewrite Hp. reflexivity.
  - apply Z.eqb_neq in El. right. split; [lia |].
    destruct (nth_error a (S n)) as [p |] eqn:Hp;
      [| apply nth_error_None in Hp; lia].
    exists p. split; [reflexivity |].
    rewrite getIndex_nth_error by lia.
    replace (Z.to_nat (Z.of_nat n + 1)) with (S n) by lia.
    rewrite Hp. reflexivity.
Qed.

(** X4. [getBeforeAndAfterIds] never throws, and it returns the pair of
    nulls exactly when the array has fewer than two panels or no panel
    carries the id. *)
Theorem getBeforeAndAfterIds_null_pair (id' : string) (a : list PanelData) :
  exists r,
    getBeforeAndAfterIds id' a = Ok r /\
    (r = (None, None) <->
     (List.length a < 2)%nat \/ forall p, In p a -> id p <> id').
Proof.
  destruct (getBeforeAndAfterIds_cases id' a)
    as [[Hnone ->] | (n & q & Hlen & _ & Hq & Hid & Hends)].
  - exists (None, None). split; [reflexivity |]. split; auto.
  - assert (Hfound : ~ ((List.length a < 2)%nat \/
                        forall p, In p a -> id p <> id')).
    { intros [H | H]; [lia |]. apply (H q (nth_error_In _ _ Hq)). exact Hid. }
    destruct Hends as [(_ & m & p & _ & _ & ->) | (_ & p & _ & ->)];
      eexists; (split; [reflexivity |]); split;
      try discriminate; intro H; contradiction.
Qed.

(** What the pair of [getBeforeAndAfterIds] is when ids are unique. *)
Lemma getBeforeAndAfterIds_adjacent (id' idBefore idAfter : string)
    (a : list PanelData) :
  uniqueIds a ->
  getBeforeAndAfterIds id' a = Ok (Some idBefore, Some idAfter) ->
  (0 <= findPanelIndex a idBefore)%Z /\
  findPanelIndex a idAfter = (findPanelIndex a idBefore + 1)%Z /\
  (findPanelIndex a idAfter < Z.of_nat (List.length a))%Z /\
  ((id' = idBefore /\
    (findPanelIndex a id' < Z.of_nat (List.length a) - 1)%Z) \/
   (id' = idAfter /\
    findPanelIndex a id' = (Z.of_nat (List.length a) - 1)%Z)).
Proof.
  intros Hu H.
  destruct (getBeforeAndAfterIds_cases id' a)
    as [[_ E] | (n & q & Hlen & Hidx & Hq & Hid & Hends)];
    [rewrite E in H; discriminate |].
  pose proof (findPanelIndex_unique a n q Hu Hq) as Hn. rewrite Hid in Hn.
  destruct Hends as [(Hlast & m & p & -> & Hp & E) | (Hmid & p & Hp & E)];
    rewrite E in H; injection H as <- <-.
  - rewrite (findPanelIndex_unique a m p Hu Hp), Hn.
    split; [lia |]. split; [lia |]. split; [lia |]. right. split; [reflexivity | lia].
  - rewrite (findPanelIndex_unique a (S n) p Hu Hp), Hn.
    split; [lia |]. split; [lia |]. split; [lia |]. left. split; [reflexivity | lia].
Qed.

(** X5. When the panels carry distinct ids, the pair [[idBefore, idAfter]]
    that [getBeforeAndAfterIds] returns for an id names two different panels
    that are neighbours in the array, [idBefore] right in front of [idAfter];
    the id asked for is [idBefore], unless it is the id of the last panel, and
    then it is [idAfter]. *)
Theorem getBeforeAndAfterIds_neighbours (id' idBefore idAfter : string)
    (a : list PanelData) :
  uniqueIds a ->
  getBeforeAndAfterIds id' a = Ok (Some idBefore, Some idAfter) ->
  idBefore <> idAfter /\
  (0 <= findPanelIndex a idBefore)%Z /\
  findPanelIndex a idAfter = (findPanelIndex a idBefore + 1)%Z /\
  (findPanelIndex a idAfter < Z.of_nat (List.length a))%Z /\
  ((id' = idBefore /\
    (findPanelIndex a id' < Z.of_nat (List.length a) - 1)%Z) \/
   (id' = idAfter /\
    findPanelIndex a id' = (Z.of_nat (List.length a) - 1)%Z)).
Proof.
  intros Hu H.
  pose proof (getBeforeAndAfterIds_adjacent _ _ _ _ Hu H) as Hadj.
  split; [| exact Hadj].
  destruct Hadj as (_ & Hnext & _). intros ->. lia.
Qed.

Lemma getBeforeAndAfterIds_neighbours_witness :
  (0 <= findPanelIndex (panelsMapToSortedArray groupCAB) "b")%Z /\
  findPanelIndex (panelsMapToSortedArray groupCAB) "c"
  = (findPanelIndex (panelsMapToSortedArray groupCAB) "b" + 1)%Z.
Proof.
  destruct (getBeforeAndAfterIds_neighbours "c" "b" "c"
              (panelsMapToSortedArray groupCAB)) as (_ & H1 & H2 & _).
  - unfold uniqueIds. vm_compute.
    repeat (constructor;
            [simpl; intros H;
             repeat (destruct H as [H | H]; [discriminate |]); exact H |]).
    constructor.
  - vm_compute. reflexivity.
  - split; [exact H1 | exact H2].
Defined.

(** Discharge [uniqueIds] of a concrete array. *)
Ltac unique_ids :=
  unfold uniqueIds; vm_compute;
  repeat (constructor;
          [simpl; intros H;
           repeat (destruct H as [H | H]; [discriminate |]); exact H |]);
  constructor.

Lemma panelsMapToSortedArray_finds_every_panel_witness :
  getIndex (panelsMapToSortedArray groupCAB)
    (findPanelIndex (panelsMapToSortedArray groupCAB) "b")
  = Some (mkPanel "b" 1 10 100 true).
Proof.
  apply (panelsMapToSortedArray_finds_every_panel groupCAB
           (mkPanel "b" 1 10 100 true)).
  - unique_ids.
  - simpl. auto.
Defined.

(** ** adjustByDelta: when it returns and when it throws *)

(** For two ids of the group, a sizes array as long as the group and a
    precision [toPrecision] accepts, [adjustByDelta] returns. *)
Lemma adjustByDelta_returns (PRECISION : nat) (event : option ResizeEvent)
    (panels : JsMap PanelData) (idBefore idAfter : string) (delta : Q)
    (prevSizes : list Q) (memo : JsMap Q) :
  (1 <= PRECISION <= 100)%nat ->
  List.length prevSizes = List.length (panelsMapToSortedArray panels) ->
  (0 <= findPanelIndex (panelsMapToSortedArray panels) idBefore)%Z ->
  (0 <= findPanelIndex (panelsMapToSortedArray panels) idAfter)%Z ->
  exists r memo',
    adjustByDelta PRECISION event panels idBefore idAfter delta prevSizes memo
    = Ok (r, memo').
Proof.
  intros HP Hlen HB HA.
  pose proof (findPanelIndex_found _ _ HB) as HB'.
  pose proof (findPanelIndex_found _ _ HA) as HA'.
  assert (Hrange : forall d,
    (0 <= pivotIndex (panelsMapToSortedArray panels) idBefore idAfter d
     < Z.of_nat (List.length (panelsMapToSortedArray panels)))%Z)
    by (intro d; unfold pivotIndex; destruct (Num.ltb d 0); assumption).
  destruct (getIndex_in_range (panelsMapToSortedArray panels) _ (Hrange delta))
    as [panel Hpanel].
  destruct (getIndex_in_range prevSizes
              (pivotIndex (panelsMapToSortedArray panels) idBefore idAfter delta))
    as [pivotPrev Hprev]; [rewrite Hlen; apply Hrange |].
  rewrite (adjustByDelta_steps _ _ _ _ _ _ delta memo panel pivotPrev Hpanel Hprev).
  cbv zeta.
  destruct (Num.eqb delta 0); [eauto |].
  destruct (Num.eqb pivotPrev (safeResizePanel panel (Qabs delta) pivotPrev event));
    [eauto |].
  destruct (runLoop_returns PRECISION event panels idBefore idAfter prevSizes
              (clampedDelta delta pivotPrev
                 (safeResizePanel panel (Qabs delta) pivotPrev event))
              (pivotMemo idBefore idAfter delta pivotPrev
                 (safeResizePanel panel (Qabs delta) pivotPrev event) memo)
              HP Hlen HB HA) as (w & Hw & Hwlen).
  rewrite Hw. cbn [bind].
  destruct (Num.eqb (deltaAppliedOf w) 0); [eauto |].
  destruct (getIndex_in_range prevSizes
              (pivotIndex (panelsMapToSortedArray panels) idBefore idAfter
                 (clampedDelta delta pivotPrev
                    (safeResizePanel panel (Qabs delta) pivotPrev event))))
    as [finalPrev ->]; [rewrite Hlen; apply Hrange |].
  cbn [orThrow bind].
  rewrite setIndex_in_range by (rewrite Hwlen, Hlen; apply Hrange).
  cbn [bind]. eauto.
Qed.

(** X6. The pair that [getBeforeAndAfterIds] returns for a group with
    distinct ids is a divider [adjustByDelta] accepts: with a sizes array as
    long as the group and a precision in 1..100, [adjustByDelta] returns for
    every delta and event, it does not throw. *)
Theorem getBeforeAndAfterIds_feeds_adjustByDelta (PRECISION : nat)
    (event : option ResizeEvent) (panels : JsMap PanelData)
    (id' idBefore idAfter : string) (delta : Q) (prevSizes : list Q)
    (memo : JsMap Q) :
  (1 <= PRECISION <= 100)%nat ->
  uniqueIds (mapValues panels) ->
  List.length prevSizes = mapSize panels ->
  getBeforeAndAfterIds id' (panelsMapToSortedArray panels)
    = Ok (Some idBefore, Some idAfter) ->
  exists r memo',
    adjustByDelta PRECISION event panels idBefore idAfter delta prevSizes memo
    = Ok (r, memo').
Proof.
  intros HP Hu Hlen Hpair.
  assert (Hu' : uniqueIds (panelsMapToSortedArray panels)).
  { unfold uniqueIds in *.
    apply (Permutation_NoDup
             (Permutation_map id (panelsMapToSortedArray_permutation_aux panels))).
    exact Hu. }
  destruct (getBeforeAndAfterIds_adjacent _ _ _ _ Hu' Hpair) as (HB & HA & _).
  apply adjustByDelta_returns; try assumption; [| lia].
  rewrite panelsMapToSortedArray_length. exact Hlen.
Qed.

Lemma getBeforeAndAfterIds_feeds_adjustByDelta_witness :
  exists r memo',
    adjustByDelta 10 keyboardEvent groupCAB "b" "c" (-5) [30; 30; 40] []
    = Ok (r, memo').
Proof.
  apply (getBeforeAndAfterIds_feeds_adjustByDelta 10 keyboardEvent groupCAB
           "c" "b" "c" (-5) [30; 30; 40] []).
  - lia.
  - unique_ids.
  - reflexivity.
  - vm_compute. reflexivity.
Defined.

(** X7. When [delta] is not 0 and no panel carries the id of the panel that
    is to grow ([idAfter] for a negative [delta], [idBefore] otherwise),
    [adjustByDelta] throws a [TypeError]; with [delta] 0 it returns
    [prevSizes] whatever the ids are. *)
Theorem adjustByDelta_unknown_pivot (PRECISION : nat)
    (event : option ResizeEvent) (panels : JsMap PanelData)
    (idBefore idAfter : string) (delta : Q) (prevSizes : list Q)
    (memo : JsMap Q) :
  (delta == 0 ->
   adjustByDelta PRECISION event panels idBefore idAfter delta prevSizes memo
   = Ok (PrevSizes, memo)) /\
  (~ delta == 0 ->
   (forall panel, In panel (mapValues panels) ->
      id panel <> (if Num.ltb delta 0 then idAfter else idBefore)) ->
   adjustByDelta PRECISION event panels idBefore idAfter delta prevSizes memo
   = Throw TypeError).
Proof.
  unfold adjustByDelta. split.
  - intro H0. apply Num_eqb_eq in H0. rewrite H0. reflexivity.
  - intros H0 Habs. apply Num_eqb_neq in H0. rewrite H0.
    unfold findPanelIndex, findIndex. rewrite findIndexFrom_absent.
    + rewrite getIndex_negative by lia. reflexivity.
    + intros panel Hin. apply String.eqb_neq. apply Habs.
      apply (proj1 (sortByOrder_In panel (mapValues panels))). exact Hin.
Qed.

Lemma adjustByDelta_unknown_pivot_witness :
  adjustByDelta 10 pointerEvent groupAB "a" "zz" 0 [60; 40] []
  = Ok (PrevSizes, []) /\
  adjustByDelta 10 pointerEvent groupAB "a" "zz" (-5) [60; 40] []
  = Throw TypeError.
Proof.
  destruct (adjustByDelta_unknown_pivot 10 pointerEvent groupAB "a" "zz" 0
              [60; 40] []) as [H0 _].
  destruct (adjustByDelta_unknown_pivot 10 pointerEvent groupAB "a" "zz" (-5)
              [60; 40] []) as [_ H1].
  split.
  - apply H0. reflexivity.
  - apply H1; [vm_compute; discriminate |].
    intros panel Hin. simpl in Hin.
    destruct Hin as [<- | [<- | []]]; vm_compute; discriminate.
Defined.

(** ** adjustByDelta: what it leaves alone *)

Lemma validState_Forall2 (panelsArray : list PanelData) (sizes : list Q) :
  Forall2 (fun panel size =>
             0 <= minSize panel <= maxSize panel /\ validSize panel size)
    panelsArray sizes ->
  validState panelsArray sizes.
Proof.
  intros HF j panel size Hp Hs.
  pose proof (getIndex_Some_range _ _ _ Hp) as Hj.
  rewrite getIndex_nth_error in Hp by lia.
  rewrite getIndex_nth_error in Hs by lia.
  revert Hp Hs. generalize (Z.to_nat j). clear j Hj.
  induction HF as [| p s a b Hps HF IH]; intros [| n] Hp Hs; simpl in *;
    try discriminate.
  - injection Hp as <-. injection Hs as <-. exact Hps.
  - apply (IH n Hp Hs).
Qed.

(** Discharge [validState] of concrete arrays. *)
Ltac valid_state :=
  apply validState_Forall2;
  repeat (constructor;
          [split;
           [split; vm_compute; discriminate
           | first [ right; split; vm_compute; discriminate
                   | left; split; reflexivity ] ] |]);
  constructor.



(** X9. From a valid state, whatever the event: a returned new array differs
    from [prevSizes] only at the pivot and at indices on the shrinking side
    of the divider (from [idBefore] downwards for a negative [delta], from
    [idAfter] upwards otherwise); panels beyond the pivot keep their sizes. *)
Theorem adjustByDelta_grow_side_untouched (PRECISION : nat)
    (event : option ResizeEvent) (panels : JsMap PanelData)
    (idBefore idAfter : string) (delta : Q) (prevSizes : list Q)
    (memo memo' : JsMap Q) (nextSizes : list Q) :
  validState (panelsMapToSortedArray panels) prevSizes ->
  adjustByDelta PRECISION event panels idBefore idAfter delta prevSizes memo
    = Ok (NextSizes nextSizes, memo') ->
  forall j,
    j <> pivotIndex (panelsMapToSortedArray panels) idBefore idAfter delta ->
    ~ ahead delta
        (startIndex (panelsMapToSortedArray panels) idBefore idAfter delta) j ->
    getIndex nextSizes j = getIndex prevSizes j.
Proof.
  intros Hvalid H j Hj Hside.
  destruct (adjustByDelta_changed_valid _ _ _ _ _ _ _ _ _ _ Hvalid H)
    as (pivotPanel & pivotPrev & w & Hrun).
  cbv zeta in Hrun.
  destruct Hrun as (_ & _ & Hsign & Hloop & _ & Hrange & ->).
  rewrite getIndex_setNth_other by (try lia; congruence).
  unfold runLoop in Hloop.
  destruct (shrinkLoop_effect _ _ _ _ _ _ _ _ _ Hloop) as (_ & _ & Hframe);
    [reflexivity |].
  apply Hframe. unfold ahead, startIndex in *. rewrite Hsign. exact Hside.
Qed.

Lemma adjustByDelta_grow_side_untouched_witness :
  getIndex [10; 10; 30; 50] 3 = getIndex [10; 20; 20; 50] 3.
Proof.
  apply (adjustByDelta_grow_side_untouched 10 keyboardEvent groupABCD "b" "c"
           (-10) [10; 20; 20; 50] [] []).
  - valid_state.
  - vm_compute. reflexivity.
  - vm_compute. discriminate.
  - vm_compute. intro H. apply H. reflexivity.
Defined.

Lemma adjustByDelta_other_entries_valid_witness :
  validSize (mkPanel "b" 1 10 100 true) 0.
Proof.
  apply (adjustByDelta_other_entries_valid 10 pointerEvent groupMiddleCollapsible
           "a" "b" [50; 20; 30] 30 [] [("b", 20)]%string [90; 0; 10] ltac:(valid_state)
           ltac:(vm_compute; reflexivity) 1%Z).
  - vm_compute. discriminate.
  - vm_compute. reflexivity.
  - vm_compute. reflexivity.
Defined.


(** ** adjustByDelta: the sizes before collapse *)

Lemma mapGet_mapSet_same {V : Type} (m : JsMap V) (k : string) (v : V) :
  mapGet (mapSet m k v) k = Some v.
Proof.
  induction m as [| [k' v'] m IH]; simpl.
  - rewrite String.eqb_refl. reflexivity.
  - destruct (String.eqb k' k) eqn:E; simpl; rewrite E; [reflexivity | exact IH].
Qed.

Lemma mapGet_mapSet_other {V : Type} (m : JsMap V) (k k' : string) (v : V) :
  k <> k' -> mapGet (mapSet m k v) k' = mapGet m k'.
Proof.
  intro Hne. induction m as [| [k0 v0] m IH]; simpl.
  - apply String.eqb_neq in Hne. rewrite Hne. reflexivity.
  - destruct (String.eqb k0 k) eqn:E; simpl.
    + apply String.eqb_eq in E. subst k0.
      apply String.eqb_neq in Hne. rewrite Hne. reflexivity.
    + destruct (String.eqb k0 k'); [reflexivity | exact IH].
Qed.

Lemma rememberCollapse_other (memo : JsMap Q) (k k' : string)
    (prevSize nextSize : Q) :
  k <> k' -> mapGet (rememberCollapse memo k prevSize nextSize) k' = mapGet memo k'.
Proof.
  intro Hne. unfold rememberCollapse.
  destruct (Num.eqb nextSize 0 && Num.ltb 0 prevSize)%bool;
    [apply mapGet_mapSet_other; exact Hne | reflexivity].
Qed.

Lemma uniqueIds_same_index (a : list PanelData) (i j : Z) (p q : PanelData) :
  uniqueIds a ->
  getIndex a i = Some p -> getIndex a j = Some q -> id p = id q -> i = j.
Proof.
  intros Hu Hp Hq E.
  pose proof (getIndex_Some_range _ _ _ Hp) as Hi.
  pose proof (getIndex_Some_range _ _ _ Hq) as Hj.
  rewrite getIndex_nth_error in Hp by lia.
  rewrite getIndex_nth_error in Hq by lia.
  pose proof (findPanelIndex_unique a _ p Hu Hp) as E1.
  pose proof (findPanelIndex_unique a _ q Hu Hq) as E2.
  rewrite E in E1. lia.
Qed.

Section CollapseMemo.

Variable PRECISION : nat.
Variable event : option ResizeEvent.
Variable panelsArray : list PanelData.
Variable prevSizes : list Q.
Variable delta : Q.
Hypothesis ids_unique : uniqueIds panelsArray.

(** What one visit does to the memo. *)
Lemma shrinkPanelAt_memo (panel : PanelData) (prevSize : Q) (index : Z)
    (w w1 : Walk) (stop : bool) :
  shrinkPanelAt PRECISION event panel prevSize delta index w = Ok (w1, stop) ->
  getIndex (nextSizesOf w) index = Some prevSize ->
  (forall k, k <> id panel -> mapGet (collapseMapOf w1) k = mapGet (collapseMapOf w) k) /\
  (forall v, getIndex (nextSizesOf w1) index = Some v ->
             0 < prevSize -> v == 0 ->
             mapGet (collapseMapOf w1) (id panel) = Some prevSize).
Proof.
  unfold shrinkPanelAt. intros H Hcur.
  set (nextSize := safeResizePanel panel (0 - Qabs delta) prevSize event) in *.
  destruct (Num.eqb prevSize nextSize) eqn:E; cbn [negb] in H.
  - injection H as <- <-. split; [reflexivity |].
    intros v Hv Hpos Hz. rewrite Hcur in Hv. injection Hv as <-. lra.
  - apply bind_Ok in H as (nextSizes & Hset & H).
    apply bind_Ok in H as (applied & _ & H).
    apply bind_Ok in H as (wanted & _ & H).
    injection H as <- <-. cbn [nextSizesOf collapseMapOf].
    apply setIndex_Ok in Hset as [Hrange ->]. split.
    + intros k Hk. apply rememberCollapse_other. congruence.
    + intros v Hv Hpos Hz.
      rewrite getIndex_setNth_same in Hv by exact Hrange. injection Hv as <-.
      unfold rememberCollapse.
      apply Num_eqb_eq in Hz. apply Num_ltb_lt in Hpos. rewrite Hz, Hpos.
      apply mapGet_mapSet_same.
Qed.

(** The loop writes the memo only under the ids of panels it visits, and
    for each visited panel it leaves at 0 from a positive size the memo
    holds that size. *)
Lemma shrinkLoop_memo (fuel : nat) :
  forall (index : Z) (w w' : Walk),
    shrinkLoop PRECISION fuel event panelsArray prevSizes delta index w = Ok w' ->
    (forall j, ahead delta index j ->
       getIndex (nextSizesOf w) j = getIndex prevSizes j) ->
    (forall k,
       (forall j p, ahead delta index j -> getIndex panelsArray j = Some p ->
                    id p <> k) ->
       mapGet (collapseMapOf w') k = mapGet (collapseMapOf w) k) /\
    (forall j p u v,
       ahead delta index j ->
       getIndex panelsArray j = Some p ->
       getIndex prevSizes j = Some u ->
       getIndex (nextSizesOf w') j = Some v ->
       0 < u -> v == 0 ->
       mapGet (collapseMapOf w') (id p) = Some u).
Proof.
  induction fuel as [| fuel IH]; intros index w w' H Hahead; [discriminate |].
  cbn [shrinkLoop] in H.
  apply bind_Ok in H as (panel & Hpanel & H).
  apply bind_Ok in H as (prevSize & Hprev & H).
  apply orThrow_Ok in Hpanel. apply orThrow_Ok in Hprev.
  apply bind_Ok in H as ([w1 stop] & Hvisit & H).
  assert (Hcur : getIndex (nextSizesOf w) index = Some prevSize)
    by (rewrite Hahead by apply ahead_self; exact Hprev).
  destruct (shrinkPanelAt_effect _ _ _ _ _ _ _ _ _ Hvisit Hcur)
    as (_ & Hother & _).
  destruct (shrinkPanelAt_memo _ _ _ _ _ _ Hvisit Hcur) as [Hkeys Hrec].
  (* the claim for a loop that ends after this visit *)
  assert (Hdone :
    (forall k,
       (forall j p, ahead delta index j -> getIndex panelsArray j = Some p ->
                    id p <> k) ->
       mapGet (collapseMapOf w1) k = mapGet (collapseMapOf w) k) /\
    (forall j p u v,
       j = index ->
       getIndex panelsArray j = Some p ->
       getIndex prevSizes j = Some u ->
       getIndex (nextSizesOf w1) j = Some v ->
       0 < u -> v == 0 ->
       mapGet (collapseMapOf w1) (id p) = Some u)).
  { split.
    - intros k Hk. apply Hkeys. intros ->.
      apply (Hk index panel (ahead_self delta index) Hpanel). reflexivity.
    - intros j p u v -> Hp Hu Hv Hpos Hz.
      rewrite Hpanel in Hp. injection Hp as <-.
      rewrite Hprev in Hu. injection Hu as <-.
      apply (Hrec v Hv Hpos Hz). }
  (* the claim when the loop goes on from [index'] *)
  assert (Hnext : forall index',
    (forall i, ahead delta index' i -> ahead delta index i /\ i <> index) ->
    (forall i, ahead delta index i -> i = index \/ ahead delta index' i) ->
    shrinkLoop PRECISION fuel event panelsArray prevSizes delta index' w1 = Ok w' ->
    (forall k,
       (forall j p, ahead delta index j -> getIndex panelsArray j = Some p ->
                    id p <> k) ->
       mapGet (collapseMapOf w') k = mapGet (collapseMapOf w) k) /\
    (forall j p u v,
       ahead delta index j ->
       getIndex panelsArray j = Some p ->
       getIndex prevSizes j = Some u ->
       getIndex (nextSizesOf w') j = Some v ->
       0 < u -> v == 0 ->
       mapGet (collapseMapOf w') (id p) = Some u)).
  { intros index' Hsub Hcover Hrec'.
    assert (Hpre : forall i, ahead delta index' i ->
                     getIndex (nextSizesOf w1) i = getIndex prevSizes i).
    { intros i Hi. destruct (Hsub i Hi) as [Hi1 Hi2].
      rewrite Hother by exact Hi2. apply Hahead. exact Hi1. }
    destruct (IH index' w1 w' Hrec' Hpre) as [IHkeys IHrec].
    destruct (shrinkLoop_effect _ _ _ _ _ _ _ _ _ Hrec' Hpre) as (_ & _ & Hframe).
    split.
    - intros k Hk. rewrite IHkeys; [apply (proj1 Hdone); exact Hk |].
      intros j p Hj Hp. apply (Hk j p); [apply (Hsub j Hj) | exact Hp].
    - intros j p u v Hj Hp Hu Hv Hpos Hz.
      destruct (Hcover j Hj) as [-> | Hj'].
      + rewrite IHkeys.
        * apply (proj2 Hdone index p u v eq_refl Hp Hu); try assumption.
          rewrite <- Hframe; [exact Hv |].
          intro Hi. apply (Hsub index Hi). reflexivity.
        * intros i q Hi Hq Eid.
          apply (proj2 (Hsub i Hi)).
          apply (uniqueIds_same_index panelsArray i index q p ids_unique Hq Hp Eid).
      + apply (IHrec j p u v Hj' Hp Hu Hv Hpos Hz). }
  assert (Hend :
    (forall k,
       (forall j p, ahead delta index j -> getIndex panelsArray j = Some p ->
                    id p <> k) ->
       mapGet (collapseMapOf w1) k = mapGet (collapseMapOf w) k) /\
    (forall j p u v,
       ahead delta index j ->
       getIndex panelsArray j = Some p ->
       getIndex prevSizes j = Some u ->
       getIndex (nextSizesOf w1) j = Some v ->
       0 < u -> v == 0 ->
       mapGet (collapseMapOf w1) (id p) = Some u)).
  { split; [apply Hdone |].
    intros j p u v Hj Hp Hu Hv Hpos Hz.
    destruct (Z.eq_dec j index) as [-> | Hne];
      [apply (proj2 Hdone index p u v eq_refl Hp Hu Hv Hpos Hz) |].
    exfalso. rewrite Hother in Hv by exact Hne.
    rewrite Hahead in Hv by exact Hj. rewrite Hu in Hv. injection Hv as <-. lra. }
  cbn beta iota in H.
  destruct stop; [injection H as <-; exact Hend |].
  unfold ahead in Hnext.
  destruct (Num.ltb delta 0) eqn:Hdir.
  - destruct (index - 1 <? 0)%Z; [injection H as <-; exact Hend |].
    unfold ahead. rewrite Hdir.
    apply (Hnext (index - 1)%Z); [intros i Hi; lia | intros i Hi; lia | exact H].
  - destruct (Z.of_nat (List.length panelsArray) <=? index + 1)%Z;
      [injection H as <-; exact Hend |].
    unfold ahead. rewrite Hdir.
    apply (Hnext (index + 1)%Z); [intros i Hi; lia | intros i Hi; lia | exact H].
Qed.

End CollapseMemo.

Lemma getIndex_In {A : Type} (a : list A) (i : Z) (x : A) :
  getIndex a i = Some x -> In x a.
Proof.
  intro H. pose proof (getIndex_Some_range _ _ _ H).
  rewrite getIndex_nth_error in H by lia. apply (nth_error_In _ _ H).
Qed.

Lemma findPanelIndex_id (a : list PanelData) (id' : string) (p : PanelData) :
  getIndex a (findPanelIndex a id') = Some p -> id p = id'.
Proof.
  intro H.
  destruct (findPanelIndex_first a id') as [[E _] | (n & q & E & Hq & Hid)];
    rewrite E in H.
  - rewrite getIndex_negative in H by lia. discriminate.
  - rewrite getIndex_nth_error, Nat2Z.id, Hq in H by lia.
    injection H as <-. exact Hid.
Qed.

(** The loop writes the memo only under ids of panels. *)
Lemma shrinkLoop_memo_keys (PRECISION : nat) (event : option ResizeEvent)
    (panelsArray : list PanelData) (prevSizes : list Q) (delta : Q)
    (k : string) :
  (forall p, In p panelsArray -> id p <> k) ->
  forall (fuel : nat) (index : Z) (w w' : Walk),
    shrinkLoop PRECISION fuel event panelsArray prevSizes delta index w = Ok w' ->
    mapGet (collapseMapOf w') k = mapGet (collapseMapOf w) k.
Proof.
  intros Hk fuel. induction fuel as [| fuel IH]; intros index w w' H;
    [discriminate |].
  cbn [shrinkLoop] in H.
  apply bind_Ok in H as (panel & Hpanel & H).
  apply bind_Ok in H as (prevSize & _ & H).
  apply orThrow_Ok in Hpanel.
  apply bind_Ok in H as ([w1 stop] & Hvisit & H).
  assert (Hstep : mapGet (collapseMapOf w1) k = mapGet (collapseMapOf w) k).
  { unfold shrinkPanelAt in Hvisit.
    destruct (negb (Num.eqb prevSize
                      (safeResizePanel panel (0 - Qabs delta) prevSize event))).
    - apply bind_Ok in Hvisit as (nextSizes & _ & Hvisit).
      apply bind_Ok in Hvisit as (applied & _ & Hvisit).
      apply bind_Ok in Hvisit as (wanted & _ & Hvisit).
      injection Hvisit as <- <-. cbn [collapseMapOf].
      apply rememberCollapse_other. apply Hk. apply (getIndex_In _ _ _ Hpanel).
    - injection Hvisit as <- <-. reflexivity. }
  cbn beta iota in H.
  destruct stop; [injection H as <-; exact Hstep |].
  destruct (Num.ltb delta 0).
  - destruct (index - 1 <? 0)%Z; [injection H as <-; exact Hstep |].
    rewrite (IH _ _ _ H). exact Hstep.
  - destruct (Z.of_nat (List.length panelsArray) <=? index + 1)%Z;
      [injection H as <-; exact Hstep |].
    rewrite (IH _ _ _ H). exact Hstep.
Qed.

(** X11. [adjustByDelta] writes [panelSizeBeforeCollapse] only under ids of
    panels of the group: whatever it returns, the entry under any other key
    is the one it found. *)
Theorem adjustByDelta_memo_other_keys (PRECISION : nat)
    (event : option ResizeEvent) (panels : JsMap PanelData)
    (idBefore idAfter : string) (delta : Q) (prevSizes : list Q)
    (memo memo' : JsMap Q) (r : Returned) (k : string) :
  adjustByDelta PRECISION event panels idBefore idAfter delta prevSizes memo
    = Ok (r, memo') ->
  (forall p, In p (mapValues panels) -> id p <> k) ->
  mapGet memo' k = mapGet memo k.
Proof.
  unfold adjustByDelta. intros H Hk.
  assert (Hk' : forall p, In p (panelsMapToSortedArray panels) -> id p <> k).
  { intros p Hp. apply Hk.
    apply (proj1 (sortByOrder_In p (mapValues panels))). exact Hp. }
  destruct (Num.eqb delta 0); [injection H as <- <-; reflexivity |].
  apply bind_Ok in H as (panel & Hpanel & H).
  apply bind_Ok in H as (pivotPrev & _ & H).
  apply orThrow_Ok in Hpanel.
  destruct (Num.eqb pivotPrev (safeResizePanel panel (Qabs delta) pivotPrev event));
    [injection H as <- <-; reflexivity |].
  apply bind_Ok in H as (w & Hloop & H).
  apply (shrinkLoop_memo_keys _ _ _ _ _ k Hk') in Hloop.
  cbn [collapseMapOf] in Hloop.
  rewrite rememberCollapse_other in Hloop.
  - destruct (Num.eqb (deltaAppliedOf w) 0); [injection H as <- <-; exact Hloop |].
    apply bind_Ok in H as (finalPrev & _ & H).
    apply bind_Ok in H as (nextSizes & _ & H).
    injection H as <- <-. exact Hloop.
  - rewrite <- (findPanelIndex_id _ _ _ Hpanel).
    apply Hk'. apply (getIndex_In _ _ _ Hpanel).
Qed.

Lemma adjustByDelta_memo_other_keys_witness :
  mapGet [("old", 7); ("b", 20)]%string "old" = mapGet [("old", 7)]%string "old".
Proof.
  apply (adjustByDelta_memo_other_keys 10 pointerEvent groupMiddleCollapsible
           "a" "b" 30 [50; 20; 30] [("old", 7)]%string
           [("old", 7); ("b", 20)]%string (NextSizes [90; 0; 10]) "old").
  - vm_compute. reflexivity.
  - intros p Hin. simpl in Hin.
    destruct Hin as [<- | [<- | [<- | []]]]; vm_compute; discriminate.
Defined.

(** X12. In a group with distinct ids and from a valid state: for every
    panel other than the pivot that a returned new array holds at 0 and that
    had a positive size before, [panelSizeBeforeCollapse] holds that previous
    size under the panel's id after the call. *)
Theorem adjustByDelta_records_collapse (PRECISION : nat)
    (event : option ResizeEvent) (panels : JsMap PanelData)
    (idBefore idAfter : string) (delta : Q) (prevSizes : list Q)
    (memo memo' : JsMap Q) (nextSizes : list Q) :
  uniqueIds (mapValues panels) ->
  validState (panelsMapToSortedArray panels) prevSizes ->
  adjustByDelta PRECISION event panels idBefore idAfter delta prevSizes memo
    = Ok (NextSizes nextSizes, memo') ->
  forall (j : Z) (p : PanelData) (u v : Q),
    j <> pivotIndex (panelsMapToSortedArray panels) idBefore idAfter delta ->
    getIndex (panelsMapToSortedArray panels) j = Some p ->
    getIndex prevSizes j = Some u ->
    getIndex nextSizes j = Some v ->
    0 < u -> v == 0 ->
    mapGet memo' (id p) = Some u.
Proof.
  intros Hu Hvalid H j p u v Hj Hp Hprevj Hnextj Hpos Hz.
  assert (Hu' : uniqueIds (panelsMapToSortedArray panels)).
  { unfold uniqueIds in *.
    apply (Permutation_NoDup
             (Permutation_map id (panelsMapToSortedArray_permutation_aux panels))).
    exact Hu. }
  destruct (adjustByDelta_changed _ _ _ _ _ _ _ _ _ _ H)
    as (panel & pivotPrev & w & finalPrev & Hrun).
  cbv zeta in Hrun.
  destruct Hrun as (H0 & Hpanel & Hprev & Hne & Hloop & _ & _ & Hrange
                    & Hnext & ->).
  assert (Hmax : pivotPrev <= maxSize panel).
  { destruct (Hvalid _ _ _ Hpanel Hprev) as [Hb [[_ Hzero] | Hin]]; lra. }
  pose proof (clampedDelta_sign panel delta pivotPrev event H0 Hmax Hne) as Hsign.
  set (delta' := clampedDelta delta pivotPrev
                   (safeResizePanel panel (Qabs delta) pivotPrev event)) in *.
  assert (Hpivot : pivotIndex (panelsMapToSortedArray panels) idBefore idAfter delta'
                   = pivotIndex (panelsMapToSortedArray panels) idBefore idAfter
                       delta)
    by (unfold pivotIndex; rewrite Hsign; reflexivity).
  rewrite Hpivot in Hrange, Hnext. subst nextSizes.
  rewrite getIndex_setNth_other in Hnextj by (try lia; congruence).
  unfold runLoop in Hloop.
  assert (Hside : ahead delta'
                    (startIndex (panelsMapToSortedArray panels) idBefore idAfter
                       delta') j).
  { destruct (shrinkLoop_effect _ _ _ _ _ _ _ _ _ Hloop) as (_ & _ & Hframe);
      [reflexivity |].
    cbn [entryWalk nextSizesOf] in Hframe.
    assert (Hdec : forall a b : Z, (a <= b)%Z \/ ~ (a <= b)%Z) by (intros; lia).
    unfold ahead in *.
    destruct (Num.ltb delta' 0);
      [destruct (Hdec j (startIndex (panelsMapToSortedArray panels) idBefore
                           idAfter delta')) as [Ha | Hn]
      | destruct (Hdec (startIndex (panelsMapToSortedArray panels) idBefore
                          idAfter delta') j) as [Ha | Hn]];
      try exact Ha;
      exfalso; rewrite (Hframe j Hn), Hprevj in Hnextj;
      injection Hnextj as <-; lra. }
  destruct (shrinkLoop_memo PRECISION event (panelsMapToSortedArray panels)
              prevSizes delta' Hu' _ _ _ _ Hloop) as [_ Hrec];
    [reflexivity |].
  apply (Hrec j p u v Hside Hp Hprevj Hnextj Hpos Hz).
Qed.

Lemma adjustByDelta_records_collapse_witness :
  mapGet [("b", 20)]%string "b" = Some 20.
Proof.
  apply (adjustByDelta_records_collapse 10 pointerEvent groupMiddleCollapsible
           "a" "b" 30 [50; 20; 30] [] [("b", 20)]%string [90; 0; 10]
           ltac:(unique_ids) ltac:(valid_state) ltac:(vm_compute; reflexivity)
           1%Z (mkPanel "b" 1 10 100 true) 20 0).
  - vm_compute. discriminate.
  - vm_compute. reflexivity.
  - vm_compute. reflexivity.
  - vm_compute. reflexivity.
  - vm_compute. reflexivity.
  - reflexivity.
Defined.

(** ** safeResizePanel: further properties *)

(** X13. Whatever the previous size, the delta and the event, the size
    [safeResizePanel] returns for a panel with [minSize <= maxSize] is a
    valid size of the panel: exactly 0 for a collapsible panel, or a size
    within [minSize .. maxSize]. *)
Theorem safeResizePanel_valid_size (panel : PanelData) (delta prevSize : Q)
    (event : option ResizeEvent) :
  minSize panel <= maxSize panel ->
  validSize panel (safeResizePanel panel delta prevSize event).
Proof.
  intro Hb.
  destruct (safeResizePanel_bounds panel delta prevSize event Hb)
    as [[Hc Hz] | Hin].
  - left. split; [exact Hc | rewrite Hz; reflexivity].
  - right. exact Hin.
Qed.

Lemma safeResizePanel_valid_size_witness :
  validSize (mkPanel "b" 1 10 100 true)
    (safeResizePanel (mkPanel "b" 1 10 100 true) (-35) 40 pointerEvent).
Proof.
  apply safeResizePanel_valid_size. vm_compute. discriminate.
Defined.

Lemma clamp_monotone (lo hi x y : Q) :
  x <= y -> Qmin hi (Qmax lo x) <= Qmin hi (Qmax lo y).
Proof.
  intro H. apply Q.min_le_compat_l. apply Q.max_le_compat_l. exact H.
Qed.

(** X14. For a panel with [0 <= minSize <= maxSize], [safeResizePanel] is
    monotone in the delta: from the same previous size and for the same event,
    a larger delta never gives a smaller size. *)
Theorem safeResizePanel_monotone (panel : PanelData) (delta1 delta2 prevSize : Q)
    (event : option ResizeEvent) :
  0 <= minSize panel <= maxSize panel ->
  delta1 <= delta2 ->
  safeResizePanel panel delta1 prevSize event
  <= safeResizePanel panel delta2 prevSize event.
Proof.
  intros Hb Hd. unfold safeResizePanel.
  pose proof (clamp_monotone (minSize panel) (maxSize panel)
                (prevSize + delta1) (prevSize + delta2) ltac:(lra)) as Hmono.
  pose proof (clamp_bounds (minSize panel) (maxSize panel) (prevSize + delta2)
                ltac:(lra)) as Hnonneg.
  destruct (collapsible panel); [| exact Hmono].
  destruct (Num.ltb 0 prevSize).
  - destruct (Num.leb (prevSize + delta1) 0) eqn:E1;
      destruct (Num.leb (prevSize + delta2) 0) eqn:E2; num_props;
      try lra; exact Hmono.
  - destruct (negb (isKeyboardEvent event)); [| exact Hmono].
    destruct (Num.ltb (prevSize + delta1) (minSize panel)) eqn:E1;
      destruct (Num.ltb (prevSize + delta2) (minSize panel)) eqn:E2; num_props;
      try lra; exact Hmono.
Qed.

Lemma safeResizePanel_monotone_witness :
  safeResizePanel (mkPanel "b" 1 10 100 true) (-45) 40 pointerEvent
  <= safeResizePanel (mkPanel "b" 1 10 100 true) (-35) 40 pointerEvent.
Proof.
  apply (safeResizePanel_monotone (mkPanel "b" 1 10 100 true) (-45) (-35) 40
           pointerEvent).
  - split; vm_compute; discriminate.
  - vm_compute. discriminate.
Defined.

(** ** callPanelCallbacks: further properties *)

Lemma forEachFrom_unchanged (panelsArray : list PanelData) (prevSizes : list Q) :
  forall (nextSizes : list Q) (index : Z),
    (forall (j : nat) (v : Q),
       nth_error nextSizes j = Some v ->
       exists u, getIndex prevSizes (index + Z.of_nat j) = Some u /\ u == v) ->
    forEachFrom panelsArray prevSizes index nextSizes = Ok [].
Proof.
  induction nextSizes as [| v rest IH]; intros index H; [reflexivity |].
  cbn [forEachFrom]. unfold notifyAt.
  destruct (H 0%nat v eq_refl) as (u & Hu & Huv).
  replace (index + Z.of_nat 0)%Z with index in Hu by lia.
  rewrite Hu. cbn [differs].
  apply Num_eqb_eq in Huv. rewrite Huv. cbn [negb bind].
  rewrite IH; [reflexivity |].
  intros j v' Hj. destruct (H (S j) v' Hj) as (u' & Hu' & Huv').
  exists u'. split; [| exact Huv'].
  replace (index + 1 + Z.of_nat j)%Z with (index + Z.of_nat (S j))%Z by lia.
  exact Hu'.
Qed.

(** X15. When every next size equals the previous size at its index,
    [callPanelCallbacks] calls no hook and does not throw, whatever the panels
    array holds; so it is silent on the array [adjustByDelta] hands back for
    a no-op. *)
Theorem callPanelCallbacks_silent_when_unchanged (panelsArray : list PanelData)
    (prevSizes nextSizes : list Q) :
  (forall (index : Z) (v : Q),
     getIndex nextSizes index = Some v ->
     exists u, getIndex prevSizes index = Some u /\ u == v) ->
  callPanelCallbacks panelsArray prevSizes nextSizes = Ok [].
Proof.
  intro H. unfold callPanelCallbacks. apply forEachFrom_unchanged.
  intros j v Hj. apply (H (0 + Z.of_nat j)%Z).
  rewrite getIndex_nth_error by lia.
  replace (Z.to_nat (0 + Z.of_nat j)) with j by lia. exact Hj.
Qed.

Lemma callPanelCallbacks_silent_when_unchanged_witness :
  callPanelCallbacks [] [60; 40] (sizesAfter [60; 40] PrevSizes) = Ok [].
Proof.
  apply callPanelCallbacks_silent_when_unchanged.
  intros index v H. exists v. split; [exact H | reflexivity].
Defined.

Lemma forEachFrom_throws (panelsArray : list PanelData) (prevSizes : list Q) :
  forall (nextSizes : list Q) (index : Z),
    ((exists calls, forEachFrom panelsArray prevSizes index nextSizes = Ok calls) /\
     forall (j : nat) (v : Q),
       nth_error nextSizes j = Some v ->
       differs (getIndex prevSizes (index + Z.of_nat j)) v = true ->
       exists panel, getIndex panelsArray (index + Z.of_nat j) = Some panel) \/
    (forEachFrom panelsArray prevSizes index nextSizes = Throw TypeError /\
     exists (j : nat) (v : Q),
       nth_error nextSizes j = Some v /\
       differs (getIndex prevSizes (index + Z.of_nat j)) v = true /\
       getIndex panelsArray (index + Z.of_nat j) = None).
Proof.
  induction nextSizes as [| v rest IH]; intro index.
  - left. split; [exists []; reflexivity |]. intros [| j] x H; discriminate.
  - cbn [forEachFrom]. unfold notifyAt.
    destruct (differs (getIndex prevSizes index) v) eqn:Ed.
    + destruct (getIndex panelsArray index) as [panel |] eqn:Ep; cbn [orThrow bind].
      * destruct (IH (index + 1)%Z) as [[[calls Hc] Hall] | [Ht Hex]].
        -- left. rewrite Hc. cbn [bind]. split; [eauto |].
           intros [| j] x Hx Hdx; cbn [nth_error] in Hx.
           ++ replace (index + Z.of_nat 0)%Z with index by lia. eauto.
           ++ replace (index + Z.of_nat (S j))%Z
                with (index + 1 + Z.of_nat j)%Z in * by lia.
              apply (Hall j x Hx Hdx).
        -- right. rewrite Ht. split; [reflexivity |].
           destruct Hex as (j & x & Hx & Hdx & Hnone). exists (S j), x.
           replace (index + Z.of_nat (S j))%Z
             with (index + 1 + Z.of_nat j)%Z by lia. auto.
      * right. split; [reflexivity |]. exists 0%nat, v.
        replace (index + Z.of_nat 0)%Z with index by lia. auto.
    + cbn [bind].
      destruct (IH (index + 1)%Z) as [[[calls Hc] Hall] | [Ht Hex]].
      * left. rewrite Hc. cbn [bind]. split; [eauto |].
        intros [| j] x Hx Hdx; cbn [nth_error] in Hx.
        -- injection Hx as <-.
           replace (index + Z.of_nat 0)%Z with index in Hdx by lia. congruence.
        -- replace (index + Z.of_nat (S j))%Z
             with (index + 1 + Z.of_nat j)%Z in * by lia.
           apply (Hall j x Hx Hdx).
      * right. rewrite Ht. split; [reflexivity |].
        destruct Hex as (j & x & Hx & Hdx & Hnone). exists (S j), x.
        replace (index + Z.of_nat (S j))%Z
          with (index + 1 + Z.of_nat j)%Z by lia. auto.
Qed.

(** X16. [callPanelCallbacks] either returns or throws a [TypeError], and it
    throws exactly when some index of [nextSizes] has a size that differs from
    the previous one and no panel: changed sizes beyond the panels array are
    an error, unchanged ones are not. *)
Theorem callPanelCallbacks_throws_iff (panelsArray : list PanelData)
    (prevSizes nextSizes : list Q) :
  ((exists calls, callPanelCallbacks panelsArray prevSizes nextSizes = Ok calls) \/
   callPanelCallbacks panelsArray prevSizes nextSizes = Throw TypeError) /\
  (callPanelCallbacks panelsArray prevSizes nextSizes = Throw TypeError <->
   exists (index : Z) (v : Q),
     getIndex nextSizes index = Some v /\
     changed (getIndex prevSizes index) v /\
     getIndex panelsArray index = None).
Proof.
  unfold callPanelCallbacks.
  destruct (forEachFrom_throws panelsArray prevSizes nextSizes 0)
    as [[[calls Hc] Hall] | [Ht (j & v & Hv & Hd & Hnone)]].
  - split; [left; eauto |]. rewrite Hc. split; [discriminate |].
    intros (index & v & Hv & Hch & Hnone). exfalso.
    pose proof (getIndex_Some_range _ _ _ Hv) as Hr.
    rewrite getIndex_nth_error in Hv by lia.
    apply differs_changed in Hch.
    replace index with (0 + Z.of_nat (Z.to_nat index))%Z in Hch, Hnone by lia.
    destruct (Hall _ _ Hv Hch) as [panel Hp]. congruence.
  - split; [right; exact Ht |]. split; [| intros _; exact Ht].
    intros _. exists (0 + Z.of_nat j)%Z, v.
    rewrite getIndex_nth_error by lia.
    replace (Z.to_nat (0 + Z.of_nat j)) with j by lia.
    apply differs_changed in Hd. auto.
Qed.

(** ** getFlexGrow: further properties *)

(** X17. In a collection of more or fewer than one panel, with distinct ids:
    for the panel at position [n] of the sorted array, [getFlexGrow] returns
    the size at index [n] of the sizes array, printed by [toPrecision], or
    "0" if the sizes array has no entry there. *)
Theorem getFlexGrow_reads_position (PRECISION : nat) (panels : JsMap PanelData)
    (sizes : list Q) (n : nat) (panel : PanelData) :
  uniqueIds (mapValues panels) ->
  mapSize panels <> 1%nat ->
  nth_error (panelsMapToSortedArray panels) n = Some panel ->
  getFlexGrow PRECISION panels (id panel) sizes
  = match nth_error sizes n with
    | Some size => Num.toPrecision size PRECISION
    | None => Ok "0"%string
    end.
Proof.
  intros Hu Hsize Hn.
  assert (Hu' : uniqueIds (panelsMapToSortedArray panels)).
  { unfold uniqueIds in *.
    apply (Permutation_NoDup
             (Permutation_map id (panelsMapToSortedArray_permutation_aux panels))).
    exact Hu. }
  unfold getFlexGrow.
  apply Nat.eqb_neq in Hsize. rewrite Hsize.
  rewrite (findPanelIndex_unique _ n panel Hu' Hn).
  rewrite getIndex_nth_error by lia. rewrite Nat2Z.id. reflexivity.
Qed.

Lemma getFlexGrow_reads_position_witness :
  getFlexGrow 10 groupCAB "b" [25; 35; 40] = Ok "35.00000000"%string.
Proof.
  apply (getFlexGrow_reads_position 10 groupCAB [25; 35; 40] 1
           (mkPanel "b" 1 10 100 true)).
  - unique_ids.
  - vm_compute. discriminate.
  - vm_compute. reflexivity.
Defined.

(** ** The document queries *)

Lemma nodesFrom_keys (position : nat) (document : Document) :
  map fst (nodesFrom position document) = seq position (List.length document).
Proof.
  revert position. induction document as [| e rest IH]; intro position; simpl;
    [reflexivity | rewrite IH; reflexivity].
Qed.

Lemma nodesFrom_nth (document : Document) :
  forall (position : nat) (node : Node),
    In node (nodesFrom position document) ->
    (position <= fst node)%nat /\
    nth_error document (fst node - position) = Some (snd node).
Proof.
  induction document as [| e rest IH]; intros position node H; [destruct H |].
  destruct H as [<- | H]; simpl.
  - rewrite Nat.sub_diag. auto.
  - destruct (IH _ _ H) as [Hle Hnth]. split; [lia |].
    replace (fst node - position)%nat with (S (fst node - S position)) by lia.
    exact Hnth.
Qed.

Lemma NoDup_map_filter {A B : Type} (key : A -> B) (f : A -> bool) (a : list A) :
  NoDup (map key a) -> NoDup (map key (filter f a)).
Proof.
  induction a as [| x a IH]; intro H; simpl; [constructor |].
  simpl in H. apply NoDup_cons_iff in H as [Hx H].
  destruct (f x); simpl; [| apply IH; exact H].
  constructor; [| apply IH; exact H].
  intro Hin. apply Hx. apply in_map_iff in Hin as (y & Hy & Hin).
  apply filter_In in Hin as [Hin _]. rewrite <- Hy. apply in_map. exact Hin.
Qed.

(** The nodes of a query are distinct elements. *)
Lemma querySelectorAll_distinct (document : Document) (selector : Element -> bool) :
  NoDup (map fst (querySelectorAll document selector)).
Proof.
  unfold querySelectorAll. apply NoDup_map_filter.
  rewrite nodesFrom_keys. apply seq_NoDup.
Qed.

(** [indexOf] finds a node of a query at its position. *)
Lemma indexOfNode_position (document : Document) (selector : Element -> bool)
    (k : nat) (node : Node) :
  nth_error (querySelectorAll document selector) k = Some node ->
  indexOfNode (querySelectorAll document selector) (Some node) = Z.of_nat k.
Proof.
  intro Hk. unfold indexOfNode, findIndex.
  pose proof (querySelectorAll_distinct document selector) as Hnd.
  destruct (findIndexFrom_first (fun h : Node => Nat.eqb (fst h) (fst node))
              (querySelectorAll document selector) 0)
    as [[_ Habs] | (m & h & Hm & Hh & Hf & _)]; unfold Node in *.
  - pose proof (Habs node (nth_error_In _ _ Hk)) as E. simpl in E.
    rewrite Nat.eqb_refl in E. discriminate.
  - rewrite Hm. apply Nat.eqb_eq in Hf.
    assert (E : m = k); [| lia].
    apply (proj1 (NoDup_nth_error _) Hnd m k).
    + apply nth_error_Some. rewrite nth_error_map, Hh. discriminate.
    + rewrite !nth_error_map, Hh, Hk. simpl. congruence.
Qed.

Lemma indexOfNode_absent (handles : list Node) (handle : option Node) :
  (forall node, handle = Some node ->
     forall h, In h handles -> fst h <> fst node) ->
  indexOfNode handles handle = (-1)%Z.
Proof.
  intro H. destruct handle as [node |]; [| reflexivity].
  unfold indexOfNode, findIndex. apply findIndexFrom_absent.
  intros h Hh. apply Nat.eqb_neq. apply (H node eq_refl h Hh).
Qed.

(** X18. [getResizeHandleIndex] returns [null] exactly when the first resize
    handle of the document carries the id, and -1, not [null], exactly when
    no resize handle carries it; any other result is the positive index of
    the first handle that carries the id. *)
Theorem getResizeHandleIndex_cases (document : Document) (id' : string) :
  let handles := getResizeHandles document in
  let carries (h : Node) :=
    getAttribute (snd h) "data-panel-resize-handle-id" = Some id' in
  (getResizeHandleIndex document id' = None <->
   exists h rest, handles = h :: rest /\ carries h) /\
  (getResizeHandleIndex document id' = Some (-1)%Z <->
   forall h, In h handles -> ~ carries h) /\
  (forall k, getResizeHandleIndex document id' = Some k -> k <> (-1)%Z ->
     (0 < k)%Z /\
     (exists h, getIndex handles k = Some h /\ carries h) /\
     forall m h, (0 <= m < k)%Z -> getIndex handles m = Some h -> ~ carries h).
Proof.
  intros handles carries. unfold getResizeHandleIndex. fold handles.
  assert (Hcarries : forall h : Node,
    optionStringEqb (getAttribute (snd h) "data-panel-resize-handle-id") id' = true
    <-> carries h).
  { intro h. unfold carries, optionStringEqb.
    destruct (getAttribute (snd h) "data-panel-resize-handle-id") as [a |].
    - rewrite String.eqb_eq. split; congruence.
    - split; discriminate. }
  assert (Hnot : forall h : Node,
    optionStringEqb (getAttribute (snd h) "data-panel-resize-handle-id") id' = false
    <-> ~ carries h).
  { intro h. rewrite <- Hcarries. symmetry. apply not_true_iff_false. }
  unfold findIndex.
  destruct (findIndexFrom_first
              (fun handle : (nat * Element)%type =>
                 optionStringEqb
                   (getAttribute (snd handle) "data-panel-resize-handle-id") id')
              handles 0)
    as [[E Habs] | (n & h & E & Hh & Hf & Hfirst)]; rewrite E.
  - cbn. split; [| split].
    + split; [discriminate |]. intros (h & rest & Hl & Hc). exfalso.
      apply (proj1 (Hnot h)); [| exact Hc]. apply Habs. rewrite Hl. left. reflexivity.
    + split; [| reflexivity]. intros _ h Hin. apply Hnot, Habs, Hin.
    + intros k Hk Hne. injection Hk as <-. contradiction.
  - apply Hcarries in Hf. destruct n as [| n].
    + cbn. destruct handles as [| h0 rest]; [discriminate |].
      injection Hh as ->. split; [| split].
      * split; [eauto | reflexivity].
      * split; [discriminate |]. intro H. exfalso.
        apply (H h (or_introl eq_refl)). exact Hf.
      * intros k Hk. discriminate.
    + remember (0 + Z.of_nat (S n))%Z as idx eqn:Hidx.
      assert (Ez : (idx =? 0)%Z = false) by (apply Z.eqb_neq; lia).
      rewrite Ez. split; [| split].
      * split; [discriminate |]. intros (h0 & rest & Hl & Hc). exfalso.
        apply (proj1 (Hnot h0)); [| exact Hc].
        apply (Hfirst 0%nat h0); [lia |]. rewrite Hl. reflexivity.
      * split; [intro H; injection H as H; lia |]. intro H. exfalso.
        apply (H h (nth_error_In _ _ Hh)). exact Hf.
      * intros k Hk _. injection Hk as <-. split; [lia |]. split.
        -- exists h. split; [| exact Hf].
           rewrite getIndex_nth_error by lia.
           replace (Z.to_nat idx) with (S n) by lia. exact Hh.
        -- intros m h0 Hm Hh0. apply Hnot.
           rewrite getIndex_nth_error in Hh0 by lia.
           apply (Hfirst (Z.to_nat m) h0); [lia | exact Hh0].
Qed.

Lemma getResizeHandleIndex_cases_witness :
  getResizeHandleIndex sampleDocument "h1" = None /\
  getResizeHandleIndex sampleDocument "zz" = Some (-1)%Z.
Proof.
  destruct (getResizeHandleIndex_cases sampleDocument "h1") as [[_ H1] _].
  destruct (getResizeHandleIndex_cases sampleDocument "zz") as [_ [[_ H2] _]].
  split.
  - apply H1. eexists _, _. split; reflexivity.
  - apply H2. intros h Hin. simpl in Hin.
    destruct Hin as [<- | [<- | [<- | []]]]; vm_compute; discriminate.
Defined.

(** X19. The handle at position [k] among the resize handles of its group
    sits between panel [k] and panel [k + 1]: when those panels exist and
    their ids are not empty, [getResizeHandlePanelIds] returns their ids. *)
Theorem getResizeHandlePanelIds_position (document : Document)
    (groupId handleId : string) (panelsArray : list PanelData)
    (handles : list Node) (node : Node) (k : nat) (before after : PanelData) :
  getResizeHandle document handleId = Ok (Some node) ->
  getResizeHandlesForGroup document groupId = Ok handles ->
  nth_error handles k = Some node ->
  nth_error panelsArray k = Some before ->
  nth_error panelsArray (S k) = Some after ->
  id before <> ""%string ->
  id after <> ""%string ->
  getResizeHandlePanelIds document groupId handleId panelsArray
  = Ok (Some (id before), Some (id after)).
Proof.
  intros Hhandle Hhandles Hk Hb Ha Hbid Haid.
  unfold getResizeHandlePanelIds. rewrite Hhandle, Hhandles. cbn [bind].
  assert (Hindex : indexOfNode handles (Some node) = Z.of_nat k).
  { unfold getResizeHandlesForGroup in Hhandles.
    apply bind_Ok in Hhandles as (selector & _ & Hq). injection Hq as <-.
    apply indexOfNode_position. exact Hk. }
  rewrite Hindex. unfold idOrNull.
  rewrite !getIndex_nth_error by lia.
  replace (Z.to_nat (Z.of_nat k + 1)) with (S k) by lia.
  rewrite Nat2Z.id, Hb, Ha.
  apply String.eqb_neq in Hbid, Haid. rewrite Hbid, Haid. reflexivity.
Qed.

Lemma getResizeHandlePanelIds_position_witness :
  getResizeHandlePanelIds sampleDocument "g" "h2"
    (panelsMapToSortedArray groupCAB)
  = Ok (Some "b"%string, Some "c"%string).
Proof.
  apply (getResizeHandlePanelIds_position sampleDocument "g" "h2"
           (panelsMapToSortedArray groupCAB)
           [(2%nat, [("data-panel-resize-handle-id", "h1");
                     ("data-panel-group-id", "g")]);
            (4%nat, [("data-panel-resize-handle-id", "h2");
                     ("data-panel-group-id", "g")])]%string
           (4%nat, [("data-panel-resize-handle-id", "h2");
                    ("data-panel-group-id", "g")]%string)
           1 (mkPanel "b" 1 10 100 true) (mkPanel "c" 2 10 100 false));
    vm_compute; try reflexivity; discriminate.
Defined.

(** X20. A handle that is not among the resize handles of the group, or is
    not in the document at all, is taken for index -1: the pair of
    [getResizeHandlePanelIds] then has [null] as [idBefore] and, when the
    array has a first panel with a nonempty id, that id as [idAfter]. *)
Theorem getResizeHandlePanelIds_unknown_handle (document : Document)
    (groupId handleId : string) (panelsArray : list PanelData)
    (handles : list Node) (handle : option Node) (first : PanelData) :
  getResizeHandle document handleId = Ok handle ->
  getResizeHandlesForGroup document groupId = Ok handles ->
  (forall node, handle = Some node ->
     forall h, In h handles -> fst h <> fst node) ->
  nth_error panelsArray 0 = Some first ->
  id first <> ""%string ->
  getResizeHandlePanelIds document groupId handleId panelsArray
  = Ok (None, Some (id first)).
Proof.
  intros Hhandle Hhandles Hnot Hfirst Hid.
  unfold getResizeHandlePanelIds. rewrite Hhandle, Hhandles. cbn [bind].
  rewrite (indexOfNode_absent handles handle Hnot). unfold idOrNull.
  rewrite getIndex_negative by lia.
  replace (-1 + 1)%Z with 0%Z by lia.
  rewrite getIndex_nth_error by lia. cbn [Z.to_nat]. rewrite Hfirst.
  apply String.eqb_neq in Hid. rewrite Hid. reflexivity.
Qed.

Lemma getResizeHandlePanelIds_unknown_handle_witness :
  getResizeHandlePanelIds sampleDocument "g" "nope"
    (panelsMapToSortedArray groupCAB)
  = Ok (None, Some "a"%string).
Proof.
  apply (getResizeHandlePanelIds_unknown_handle sampleDocument "g" "nope"
           (panelsMapToSortedArray groupCAB)
           [(2%nat, [("data-panel-resize-handle-id", "h1");
                     ("data-panel-group-id", "g")]);
            (4%nat, [("data-panel-resize-handle-id", "h2");
                     ("data-panel-group-id", "g")])]%string
           None (mkPanel "a" 0 10 100 false)).
  - vm_compute. reflexivity.
  - vm_compute. reflexivity.
  - intros node H. discriminate.
  - vm_compute. reflexivity.
  - vm_compute. discriminate.
Defined.






(** * The budget of adjustByDelta over binary64 numbers *)

Import PrimFloat.

Local Set Warnings "-inexact-float".

Lemma exactSum_setNth (a : list float) (n : nat) (u v : float) :
  nth_error a n = Some u ->
  Binary64.exactSum (setNth a n v)
  == Binary64.exactSum a - Binary64.value u + Binary64.value v.
Proof.
  revert n. induction a as [| x a IH]; intros [| n] H; simpl in *;
    try discriminate.
  - injection H as ->. ring.
  - rewrite (IH n H). ring.
Qed.

Section Binary64Loop.

Variable PRECISION : nat.
Variable event : option ResizeEvent.
Variable panelsArray : list Binary64.PanelData.
Variable prevSizes : list float.
Variable delta : float.

(** One visit writes at most the entry at [index]; the exact sum of the
    array and of [deltaApplied] moves by the rounding error of the visit. *)
Lemma binary64_shrinkPanelAt_effect (panel : Binary64.PanelData)
    (prevSize : float) (index : Z) (w w1 : Binary64.Walk)
    (stop : bool) :
  Binary64.shrinkPanelAt PRECISION event panel prevSize delta index w
    = Ok (w1, stop) ->
  getIndex (Binary64.nextSizesOf w) index = Some prevSize ->
  List.length (Binary64.nextSizesOf w1) = List.length (Binary64.nextSizesOf w) /\
  (forall j, j <> index ->
     getIndex (Binary64.nextSizesOf w1) j = getIndex (Binary64.nextSizesOf w) j) /\
  Binary64.exactSum (Binary64.nextSizesOf w1)
    + Binary64.value (Binary64.deltaAppliedOf w1)
  == Binary64.exactSum (Binary64.nextSizesOf w)
     + Binary64.value (Binary64.deltaAppliedOf w)
     + Binary64.visitError event panel prevSize delta w.
Proof.
  unfold Binary64.shrinkPanelAt, Binary64.visitError. intros H Hget.
  set (nextSize := Binary64.safeResizePanel panel _ prevSize event) in *.
  destruct (prevSize =? nextSize)%float eqn:E; cbn [negb] in H |- *.
  - injection H as <- <-. split; [reflexivity |]. split; [reflexivity |]. ring.
  - apply bind_Ok in H as (nextSizes & Hset & H).
    apply bind_Ok in H as (applied & _ & H).
    apply bind_Ok in H as (wanted & _ & H).
    injection H as <- <-.
    cbn [Binary64.nextSizesOf Binary64.deltaAppliedOf].
    apply setIndex_Ok in Hset as [Hrange ->].
    split; [apply setNth_length |]. split.
    + intros j Hj. apply getIndex_setNth_other; [lia | congruence].
    + rewrite (exactSum_setNth _ _ prevSize)
        by (rewrite <- getIndex_nth_error by lia; exact Hget).
      unfold Binary64.addError, Binary64.subError. ring.
Qed.

Lemma binary64_ahead_self (index : Z) : Binary64.ahead delta index index.
Proof. unfold Binary64.ahead. destruct (delta <? 0)%float; lia. Qed.

(** The loop leaves every index it has passed or never reaches as it found
    it, and the exact sum of the array and of [deltaApplied] moves by the
    rounding errors of its visits. *)
Lemma binary64_shrinkLoop_effect (fuel : nat) :
  forall (index : Z) (w w' : Binary64.Walk),
    Binary64.shrinkLoop PRECISION fuel event panelsArray prevSizes delta index w
      = Ok w' ->
    (forall j, Binary64.ahead delta index j ->
       getIndex (Binary64.nextSizesOf w) j = getIndex prevSizes j) ->
    exists error,
      Binary64.loopError PRECISION fuel event panelsArray prevSizes delta index w
        = Ok error /\
      List.length (Binary64.nextSizesOf w') = List.length (Binary64.nextSizesOf w) /\
      Binary64.exactSum (Binary64.nextSizesOf w')
        + Binary64.value (Binary64.deltaAppliedOf w')
      == Binary64.exactSum (Binary64.nextSizesOf w)
         + Binary64.value (Binary64.deltaAppliedOf w) + error /\
      (forall j, ~ Binary64.ahead delta index j ->
         getIndex (Binary64.nextSizesOf w') j = getIndex (Binary64.nextSizesOf w) j).
Proof.
  induction fuel as [| fuel IH]; intros index w w' H Hahead;
    [discriminate |].
  cbn [Binary64.shrinkLoop] in H. cbn [Binary64.loopError].
  apply bind_Ok in H as (panel & Hpanel & H).
  apply bind_Ok in H as (prevSize & Hprev & H).
  rewrite Hpanel, Hprev. cbn [bind]. cbv zeta.
  apply orThrow_Ok in Hprev.
  apply bind_Ok in H as ([w1 stop] & Hvisit & H).
  rewrite Hvisit. cbn [bind].
  assert (Hcur : getIndex (Binary64.nextSizesOf w) index = Some prevSize)
    by (rewrite Hahead by apply binary64_ahead_self; exact Hprev).
  destruct (binary64_shrinkPanelAt_effect _ _ _ _ _ _ Hvisit Hcur)
    as (Hlen & Hother & Hsum).
  set (error := Binary64.visitError event panel prevSize delta w) in *.
  assert (Hframe1 : forall j, ~ Binary64.ahead delta index j ->
            getIndex (Binary64.nextSizesOf w1) j
            = getIndex (Binary64.nextSizesOf w) j).
  { intros j Hj. apply Hother. intros ->. apply Hj, binary64_ahead_self. }
  assert (Hnext : forall index',
    (forall j, Binary64.ahead delta index' j ->
               Binary64.ahead delta index j /\ j <> index) ->
    Binary64.shrinkLoop PRECISION fuel event panelsArray prevSizes delta index' w1
      = Ok w' ->
    exists total,
      (rest <- Binary64.loopError PRECISION fuel event panelsArray prevSizes
                 delta index' w1 ;; Ok (error + rest)) = Ok total /\
      List.length (Binary64.nextSizesOf w') = List.length (Binary64.nextSizesOf w) /\
      Binary64.exactSum (Binary64.nextSizesOf w')
        + Binary64.value (Binary64.deltaAppliedOf w')
      == Binary64.exactSum (Binary64.nextSizesOf w)
         + Binary64.value (Binary64.deltaAppliedOf w) + total /\
      (forall j, ~ Binary64.ahead delta index j ->
         getIndex (Binary64.nextSizesOf w') j
         = getIndex (Binary64.nextSizesOf w) j)).
  { intros index' Hsub Hrec.
    destruct (IH index' w1 w' Hrec) as (rest & Hrest & Hlen' & Hsum' & Hframe').
    - intros j Hj. destruct (Hsub j Hj) as [Hj1 Hj2].
      rewrite Hother by exact Hj2. apply Hahead. exact Hj1.
    - exists (error + rest). rewrite Hrest. split; [reflexivity |].
      split; [congruence |]. split.
      + rewrite Hsum', Hsum. ring.
      + intros j Hj. rewrite Hframe'.
        * apply Hframe1. exact Hj.
        * intro Hj'. apply Hj. apply (Hsub j Hj'). }
  cbn beta iota in H |- *.
  destruct stop.
  { injection H as <-. exists error. repeat split; assumption. }
  unfold Binary64.ahead in Hnext, Hframe1 |- *.
  destruct (delta <? 0)%float eqn:Hdir.
  - destruct (index - 1 <? 0)%Z.
    { injection H as <-. exists error. repeat split; assumption. }
    apply (Hnext (index - 1)%Z); [intros j Hj; lia | exact H].
  - destruct (Z.of_nat (List.length panelsArray) <=? index + 1)%Z.
    { injection H as <-. exists error. repeat split; assumption. }
    apply (Hnext (index + 1)%Z); [intros j Hj; lia | exact H].
Qed.

Hypothesis PRECISION_range : (1 <= PRECISION <= 100)%nat.

Lemma binary64_toPrecision_Ok (x : float) :
  exists s, Binary64.toPrecision x PRECISION = Ok s.
Proof.
  unfold Binary64.toPrecision.
  destruct (FloatOps.Prim2SF x); eauto;
    apply toPrecision_Ok; exact PRECISION_range.
Qed.

(** With a precision that [toPrecision] accepts, a visit inside the array
    returns. *)
Lemma binary64_shrinkPanelAt_returns (panel : Binary64.PanelData)
    (prevSize : float) (index : Z) (w : Binary64.Walk) :
  (0 <= index < Z.of_nat (List.length (Binary64.nextSizesOf w)))%Z ->
  exists w1 stop,
    Binary64.shrinkPanelAt PRECISION event panel prevSize delta index w
      = Ok (w1, stop) /\
    List.length (Binary64.nextSizesOf w1)
      = List.length (Binary64.nextSizesOf w).
Proof.
  intro Hrange. unfold Binary64.shrinkPanelAt.
  set (nextSize := Binary64.safeResizePanel panel _ prevSize event).
  destruct (negb (prevSize =? nextSize)%float); [| eauto].
  rewrite setIndex_in_range by exact Hrange. cbn [bind].
  destruct (binary64_toPrecision_Ok
              (Binary64.deltaAppliedOf w + (prevSize - nextSize))%float)
    as [applied ->].
  destruct (binary64_toPrecision_Ok delta) as [wanted ->].
  cbn [bind]. eexists _, _. split; [reflexivity |].
  cbn [Binary64.nextSizesOf]. apply setNth_length.
Qed.

(** The loop returns: entered inside the arrays, it needs one level of fuel
    for each index between its entry and the end of the side it walks. *)
Lemma binary64_shrinkLoop_returns (fuel : nat) :
  forall (index : Z) (w : Binary64.Walk),
    List.length prevSizes = List.length panelsArray ->
    List.length (Binary64.nextSizesOf w) = List.length prevSizes ->
    (0 <= index < Z.of_nat (List.length panelsArray))%Z ->
    (if (delta <? 0)%float then index < Z.of_nat fuel
     else Z.of_nat (List.length panelsArray) - index <= Z.of_nat fuel)%Z ->
    exists w',
      Binary64.shrinkLoop PRECISION fuel event panelsArray prevSizes delta
        index w = Ok w'.
Proof.
  induction fuel as [| fuel IH]; intros index w Hlen Hw Hrange Hfuel.
  - destruct (delta <? 0)%float; lia.
  - cbn [Binary64.shrinkLoop].
    destruct (getIndex_in_range panelsArray index Hrange) as [panel ->].
    destruct (getIndex_in_range prevSizes index) as [prevSize ->]; [lia |].
    cbn [orThrow bind].
    destruct (binary64_shrinkPanelAt_returns panel prevSize index w)
      as (w1 & stop & -> & Hw1); [lia |].
    cbn [bind]. destruct stop; [eauto |].
    destruct (delta <? 0)%float.
    + destruct (index - 1 <? 0)%Z eqn:E; [eauto |]. apply Z.ltb_ge in E.
      apply IH; [assumption | congruence | lia | lia].
    + destruct (Z.of_nat (List.length panelsArray) <=? index + 1)%Z eqn:E;
        [eauto |].
      apply Z.leb_gt in E. apply IH; [assumption | congruence | lia | lia].
Qed.

End Binary64Loop.

(** Over binary64 numbers too, a call for a divider between two panels of
    the group, with one size for each panel and a precision that
    [toPrecision] accepts, returns: it neither throws nor reads outside
    [prevSizes]. *)
Lemma binary64_adjustByDelta_returns (PRECISION : nat)
    (event : option ResizeEvent) (panels : JsMap Binary64.PanelData)
    (idBefore idAfter : string) (delta : float) (prevSizes : list float)
    (memo : JsMap float) :
  let panelsArray := Binary64.panelsMapToSortedArray panels in
  (1 <= PRECISION <= 100)%nat ->
  List.length prevSizes = List.length panelsArray ->
  (0 <= Binary64.findPanelIndex panelsArray idBefore)%Z ->
  (0 <= Binary64.findPanelIndex panelsArray idAfter)%Z ->
  exists r memo',
    Binary64.adjustByDelta PRECISION event panels idBefore idAfter delta
      prevSizes memo = Ok (r, memo').
Proof.
  intros panelsArray HP Hlen HB HA.
  assert (Hfound : forall pivotId,
    (0 <= Binary64.findPanelIndex panelsArray pivotId)%Z ->
    (0 <= Binary64.findPanelIndex panelsArray pivotId
     < Z.of_nat (List.length panelsArray))%Z).
  { intros pivotId H. unfold Binary64.findPanelIndex, findIndex in *.
    destruct (findIndexFrom_range
                (fun panel => String.eqb (Binary64.id panel) pivotId)
                panelsArray 0) as [E | E]; lia. }
  apply Hfound in HB, HA.
  assert (Hrange : forall b : bool,
    (0 <= Binary64.findPanelIndex panelsArray (if b then idAfter else idBefore)
     < Z.of_nat (List.length panelsArray))%Z)
    by (intros [|]; assumption).
  assert (Hstart : forall b : bool,
    (0 <= Binary64.findPanelIndex panelsArray (if b then idBefore else idAfter)
     < Z.of_nat (List.length panelsArray))%Z)
    by (intros [|]; assumption).
  unfold Binary64.adjustByDelta. fold panelsArray.
  destruct (delta =? 0)%float; [eauto |].
  destruct (getIndex_in_range panelsArray _ (Hrange (delta <? 0)%float))
    as [panel ->].
  destruct (getIndex_in_range prevSizes
              (Binary64.findPanelIndex panelsArray
                 (if (delta <? 0)%float then idAfter else idBefore)))
    as [pivotPrev ->]; [rewrite Hlen; apply Hrange |].
  cbn [orThrow bind].
  set (pivotNext := Binary64.safeResizePanel panel (abs delta) pivotPrev event).
  destruct (pivotPrev =? pivotNext)%float; [eauto |].
  cbv zeta.
  set (delta' := if (delta <? 0)%float
                 then (pivotPrev - pivotNext)%float
                 else (pivotNext - pivotPrev)%float).
  match goal with
  | |- context [Binary64.shrinkLoop _ _ _ _ _ _ ?i ?w] =>
      destruct (binary64_shrinkLoop_returns PRECISION event panelsArray
                  prevSizes delta' HP (Binary64.loopFuel panelsArray) i w)
        as [w' Hw']
  end; try assumption; try reflexivity.
  - apply Hstart.
  - unfold Binary64.loopFuel. pose proof (Hstart (delta' <? 0)%float).
    destruct (delta' <? 0)%float; lia.
  - rewrite Hw'. cbn [bind].
    destruct (Binary64.deltaAppliedOf w' =? 0)%float; [eauto |].
    destruct (binary64_shrinkLoop_effect _ _ _ _ _ _ _ _ _ Hw')
      as (_ & _ & Hwlen & _); [reflexivity |].
    cbn [Binary64.nextSizesOf] in Hwlen.
    destruct (getIndex_in_range prevSizes
                (Binary64.findPanelIndex panelsArray
                   (if (delta' <? 0)%float then idAfter else idBefore)))
      as [finalPrev ->]; [rewrite Hlen; apply Hrange |].
    cbn [orThrow bind].
    rewrite setIndex_in_range by (rewrite Hwlen, Hlen; apply Hrange).
    cbn [bind]. eauto.
Qed.

(** C1. Over binary64 numbers: whenever [adjustByDelta] returns a new array,
    for a divider between two panels of the group of which [idBefore] stands
    before [idAfter], and one size for each panel, all sizes before and
    after being finite, the exact sum of the entries of the new array is the
    exact sum of the entries of [prevSizes] plus the rounding errors of the
    call: those of the subtractions [prevSize - nextSize] and of the
    additions to [deltaApplied] in the loop, and that of the last addition
    [prevSizes[index] + deltaApplied].  The two sums are equal when none of
    these operations rounds. *)
Theorem adjustByDelta_budget_up_to_rounding (PRECISION : nat)
    (event : option ResizeEvent) (panels : JsMap Binary64.PanelData)
    (idBefore idAfter : string) (delta : float)
    (prevSizes : list float) (memo memo' : JsMap float)
    (nextSizes : list float) :
  let panelsArray := Binary64.panelsMapToSortedArray panels in
  (0 <= Binary64.findPanelIndex panelsArray idBefore
   < Binary64.findPanelIndex panelsArray idAfter)%Z ->
  List.length prevSizes = List.length panelsArray ->
  Binary64.allFinite prevSizes ->
  Binary64.adjustByDelta PRECISION event panels idBefore idAfter delta
    prevSizes memo = Ok (Binary64.NextSizes nextSizes, memo') ->
  Binary64.allFinite nextSizes ->
  exists error,
    Binary64.roundingError PRECISION event panels idBefore idAfter delta
      prevSizes memo = Ok error /\
    Binary64.exactSum nextSizes == Binary64.exactSum prevSizes + error.
Proof.
  intros panelsArray Horder _ _ H _.
  unfold Binary64.adjustByDelta in H. unfold Binary64.roundingError.
  fold panelsArray in H |- *.
  destruct (delta =? 0)%float eqn:E0; [discriminate |].
  apply bind_Ok in H as (panel & Hpanel & H).
  apply bind_Ok in H as (pivotPrev & Hprev & H).
  rewrite Hpanel, Hprev. cbn [bind].
  set (pivotNext := Binary64.safeResizePanel panel (abs delta)
                      pivotPrev event) in *.
  destruct (pivotPrev =? pivotNext)%float eqn:E1; [discriminate |].
  cbv zeta in H |- *.
  set (delta' := if (delta <? 0)%float
                 then (pivotPrev - pivotNext)%float
                 else (pivotNext - pivotPrev)%float) in *.
  apply bind_Ok in H as (w & Hloop & H).
  destruct (Binary64.deltaAppliedOf w =? 0)%float eqn:E2; [discriminate |].
  apply bind_Ok in H as (finalPrev & Hfinal & H).
  apply bind_Ok in H as (next & Hset & H).
  apply orThrow_Ok in Hfinal. apply setIndex_Ok in Hset as [Hrange ->].
  injection H as <- <-.
  rewrite Hloop. cbn [bind].
  destruct (binary64_shrinkLoop_effect _ _ _ _ _ _ _ _ _ Hloop)
    as (error & Herror & _ & Hsum & Hframe); [reflexivity |].
  rewrite Herror. cbn [bind]. rewrite Hfinal. cbn [orThrow bind].
  cbn [Binary64.nextSizesOf Binary64.deltaAppliedOf] in Hsum, Hframe.
  eexists. split; [reflexivity |].
  assert (Hbudget :
    Binary64.exactSum
      (setNth (Binary64.nextSizesOf w)
         (Z.to_nat (Binary64.findPanelIndex panelsArray
                      (if (delta' <? 0)%float then idAfter else idBefore)))
         (finalPrev + Binary64.deltaAppliedOf w)%float)
    == Binary64.exactSum prevSizes
       + (error + Binary64.addError finalPrev (Binary64.deltaAppliedOf w))).
  { rewrite exactSum_setNth with (u := finalPrev).
    - unfold Binary64.addError.
      assert (E : Binary64.value 0%float == 0) by (vm_compute; reflexivity).
      rewrite E in Hsum.
      rewrite <- (Qplus_0_r (Binary64.exactSum prevSizes)).
      setoid_replace (Binary64.exactSum prevSizes + 0)
        with (Binary64.exactSum (Binary64.nextSizesOf w)
              + Binary64.value (Binary64.deltaAppliedOf w) - error)
        by (rewrite Hsum; ring).
      ring.
    - rewrite <- getIndex_nth_error by lia.
      rewrite Hframe; [exact Hfinal |].
      unfold Binary64.ahead. destruct (delta' <? 0)%float; lia. }
  exact Hbudget.
Qed.

Lemma adjustByDelta_budget_up_to_rounding_witness :
  exists error,
    Binary64.roundingError 10 pointerEvent (Binary64.groupABC 10 100) "a" "b"
      (-15)%float [60; 30; 10]%float [] = Ok error /\
    Binary64.exactSum [45; 45; 10]%float
    == Binary64.exactSum [60; 30; 10]%float + error.
Proof.
  apply (adjustByDelta_budget_up_to_rounding 10 pointerEvent (Binary64.groupABC 10 100)
           "a" "b" (-15)%float [60; 30; 10]%float [] []
           [45; 45; 10]%float).
  - vm_compute. split; [discriminate | reflexivity].
  - reflexivity.
  - repeat constructor.
  - vm_compute. reflexivity.
  - repeat constructor.
Defined.

(** On these integers no operation rounds: the rounding errors of the call
    are 0 and the two sums are both 100. *)
Lemma adjustByDelta_budget_exact_on_integers :
  Binary64.adjustByDelta 10 pointerEvent (Binary64.groupABC 10 100) "a" "b"
    (-15)%float [60; 30; 10]%float []
    = Ok (Binary64.NextSizes [45; 45; 10]%float, []) /\
  (exists error,
     Binary64.roundingError 10 pointerEvent (Binary64.groupABC 10 100) "a" "b"
       (-15)%float [60; 30; 10]%float [] = Ok error /\ error == 0) /\
  Binary64.exactSum [45; 45; 10]%float == 100 /\
  Binary64.exactSum [60; 30; 10]%float == 100.
Proof.
  split; [vm_compute; reflexivity |].
  split; [eexists; split; [vm_compute; reflexivity |];
          vm_compute; reflexivity |].
  split; vm_compute; reflexivity.
Qed.

(** C1 as first stated fails over binary64 numbers.  The sizes 15.6, 48.7,
    35.7 and a pointer drag by 0.5 at the divider after the first panel: the
    pivot is asked to 15.6 + 0.5 = 16.1 and [delta] becomes 16.1 - 15.6,
    which is 0.5000000000000018; the second panel goes to
    48.7 - 0.5000000000000018 = 48.2 and [deltaApplied] is 48.7 - 48.2, which
    is 0.5; the loop stops, "0.5000000000" not being below "0.5000000000",
    and the pivot is set to 15.6 + 0.5 = 16.1.  The new array 16.1, 48.2, 35.7
    differs from [prevSizes], and the exact sum of its entries is larger than
    that of [prevSizes] by 2^-49. *)
Lemma adjustByDelta_budget_drifts :
  Binary64.adjustByDelta 10 pointerEvent (Binary64.groupABC 10 100) "a" "b" 0.5%float
    [15.6; 48.7; 35.7]%float []
    = Ok (Binary64.NextSizes [16.1; 48.2; 35.7]%float, []) /\
  Binary64.exactSum [16.1; 48.2; 35.7]%float
  - Binary64.exactSum [15.6; 48.7; 35.7]%float == 1 # 2 ^ 49 /\
  ~ Binary64.exactSum [16.1; 48.2; 35.7]%float
    == Binary64.exactSum [15.6; 48.7; 35.7]%float.
Proof.
  split; [vm_compute; reflexivity |].
  split; [vm_compute; reflexivity | vm_compute; discriminate].
Qed.

(** The steps of that run, and its rounding errors. *)
Lemma adjustByDelta_budget_drifts_steps :
  (15.6 + 0.5 = 16.1)%float /\
  Binary64.toPrecision (16.1 - 15.6)%float 17
    = Ok "0.50000000000000178"%string /\
  (48.7 + (0 - abs (16.1 - 15.6)) = 48.2)%float /\
  (48.7 - 48.2 = 0.5)%float /\
  Binary64.toPrecision (48.7 - 48.2)%float 10 = Ok "0.5000000000"%string /\
  Binary64.toPrecision (16.1 - 15.6)%float 10 = Ok "0.5000000000"%string /\
  (exists error,
     Binary64.roundingError 10 pointerEvent (Binary64.groupABC 10 100) "a" "b"
       0.5%float [15.6; 48.7; 35.7]%float [] = Ok error /\
     error == 1 # 2 ^ 49).
Proof.
  repeat split; try (vm_compute; reflexivity).
  eexists. split; [vm_compute; reflexivity |]. vm_compute. reflexivity.
Qed.

(** The sum drifts by 2^-49 whatever the precision of the comparison. *)
Lemma adjustByDelta_budget_drifts_at_every_precision :
  Forall (fun PRECISION =>
    match Binary64.adjustByDelta PRECISION pointerEvent (Binary64.groupABC 10 100)
            "a" "b" 0.5%float [15.6; 48.7; 35.7]%float [] with
    | Ok (Binary64.NextSizes nextSizes, _) =>
        Binary64.exactSum nextSizes
        - Binary64.exactSum [15.6; 48.7; 35.7]%float == 1 # 2 ^ 49
    | _ => False
    end)
    (seq 1 100).
Proof.
  repeat (constructor; [vm_compute; reflexivity |]).
  constructor.
Qed.

(** ** The runs of the rational model over binary64 numbers *)

(** The runs that are stated above over exact rationals start from small
    integers, on which no operation rounds: over binary64 numbers they end
    in the same arrays.  In order: the pivot above its [maxSize] and the
    walk that takes 7 for a delta of 5; the walk that stops after 2 of the 5
    wanted; the walk that stops with 4 to supply; the keyboard walk whose
    changes cancel; the keyboard walk that grows the collapsed panel. *)
Lemma integer_runs_over_binary64 :
  Binary64.adjustByDelta 10 pointerEvent (Binary64.groupABC 10 55) "a" "b"
    5%float [50; 12; 38]%float []
    = Ok (Binary64.NextSizes [57; 10; 33]%float, []) /\
  Binary64.adjustByDelta 10 pointerEvent (Binary64.groupABC 10 100) "a" "b"
    5%float [50; 12; 38]%float []
    = Ok (Binary64.NextSizes [57; 10; 33]%float, []) /\
  Binary64.adjustByDelta 10 pointerEvent (Binary64.groupABC 10 100) "b" "c"
    (-5)%float [30; 12; 58]%float []
    = Ok (Binary64.NextSizes [30; 10; 60]%float, []) /\
  Binary64.adjustByDelta 10 pointerEvent (Binary64.groupABC 28 100) "b" "c"
    (-5)%float [30; 12; 58]%float []
    = Ok (Binary64.NextSizes [30; 10; 60]%float, []) /\
  Binary64.adjustByDelta 10 keyboardEvent Binary64.groupMiddleCollapsible
    "a" "b" 10%float [40; 0; 60]%float [] = Ok (Binary64.PrevSizes, []) /\
  Binary64.adjustByDelta 10 keyboardEvent Binary64.groupMiddleCollapsible
    "a" "b" 5%float [50; 0; 50]%float []
    = Ok (Binary64.NextSizes [45; 10; 45]%float, []).
Proof.
  repeat split; vm_compute; reflexivity.
Qed.
